(** * mysql-mcp: the connection-lifecycle manager of [src/index.ts] and the
    database session of [database.ts], embedded in Rocq.

    Layout of the development:
    - JavaScript strings and the two validation helpers;
    - the module-level state ([sshTunnel], [idleTimer], the pool of
      [dbClient]) and the calls the program makes to its surroundings;
    - the asynchronous functions as terms of a small program monad, with a
      run-to-completion semantics and a semantics that suspends at awaited
      calls;
    - the process as a transition system over tool calls, timer
      expirations and signals of the SSH connection;
    - the properties. *)

From Stdlib Require Import String Ascii.
From Stdlib Require Import List NArith ZArith Bool Lia.
Import ListNotations.

Local Open Scope N_scope.

(* ===================================================================== *)
(** ** JavaScript strings *)
(* ===================================================================== *)

(** A JavaScript string is a sequence of UTF-16 code units. *)
Definition JsString : Type := list N.

(** String literals of the source, written as Rocq strings. *)
Definition lit (s : string) : JsString :=
  map N_of_ascii (list_ascii_of_string s).

Definition unit_eqb (a b : N) : bool := N.eqb a b.

Fixpoint str_eqb (a b : JsString) : bool :=
  match a, b with
  | [], [] => true
  | x :: a', y :: b' => unit_eqb x y && str_eqb a' b'
  | _, _ => false
  end.

(** [String.prototype.startsWith] *)
Fixpoint startsWith (s p : JsString) {struct p} : bool :=
  match p with
  | [] => true
  | x :: p' =>
      match s with
      | [] => false
      | y :: s' => unit_eqb x y && startsWith s' p'
      end
  end.

(** [String.prototype.includes] *)
Fixpoint includes (s p : JsString) : bool :=
  startsWith s p ||
  match s with
  | [] => false
  | _ :: s' => includes s' p
  end.

(** The WhiteSpace and LineTerminator code units of ECMAScript, which are
    what [trim] strips. *)
Definition isWhiteSpace (c : N) : bool :=
  ((9 <=? c) && (c <=? 13)) || (c =? 32) || (c =? 160) || (c =? 5760) ||
  ((8192 <=? c) && (c <=? 8202)) || (c =? 8232) || (c =? 8233) ||
  (c =? 8239) || (c =? 8287) || (c =? 12288) || (c =? 65279).

Fixpoint trimStart (s : JsString) : JsString :=
  match s with
  | [] => []
  | c :: s' => if isWhiteSpace c then trimStart s' else s
  end.

Definition trimEnd (s : JsString) : JsString := rev (trimStart (rev s)).

(** [String.prototype.trim] *)
Definition trim (s : JsString) : JsString := trimEnd (trimStart s).

(** Lower-casing of one code unit.  [A-Z] go to [a-z].  Outside ASCII the
    two characters whose lower case reaches ASCII are listed (U+0130 gives
    [i] followed by U+0307, the Kelvin sign U+212A gives [k]); every other
    cased character maps to one non-ASCII character and is kept as it is,
    which no comparison with an ASCII word can tell apart. *)
Definition lowerUnit (c : N) : JsString :=
  if (65 <=? c) && (c <=? 90) then [c + 32]
  else if c =? 304 then [105; 775]
  else if c =? 8490 then [107]
  else [c].

(** [String.prototype.toLowerCase] *)
Definition toLowerCase (s : JsString) : JsString := flat_map lowerUnit s.

(** [String.prototype.replace] with a global regular expression that is
    one character class: the scan goes left to right, a code unit of the
    class is replaced by [repl], any other is copied. *)
Fixpoint replaceClass (cls : N -> bool) (repl s : JsString) : JsString :=
  match s with
  | [] => []
  | c :: s' =>
      if cls c then repl ++ replaceClass cls repl s'
      else c :: replaceClass cls repl s'
  end.

(* ===================================================================== *)
(** ** Validation helpers of index.ts *)
(* ===================================================================== *)

(** [isReadOnlyQuery] *)
Definition isReadOnlyQuery (sql : JsString) : bool :=
  let trimmed := toLowerCase (trim sql) in
  startsWith trimmed (lit "select") ||
  startsWith trimmed (lit "show") ||
  startsWith trimmed (lit "describe").

(** The class [a-zA-Z0-9_]. *)
Definition isWordUnit (c : N) : bool :=
  ((97 <=? c) && (c <=? 122)) || ((65 <=? c) && (c <=? 90)) ||
  ((48 <=? c) && (c <=? 57)) || (c =? 95).

(** [sanitizeTableName]: [table.replace(/[^a-zA-Z0-9_]/g, '')] *)
Definition sanitizeTableName (table : JsString) : JsString :=
  replaceClass (fun c => negb (isWordUnit c)) [] table.

(* ===================================================================== *)
(** ** Values, errors and the module-level state *)
(* ===================================================================== *)

(** What [pool.execute] resolves to: an array of row objects. *)
Inductive SqlValue : Type :=
| SqlNull
| SqlNumber (n : Z)
| SqlText (s : JsString).

Definition Row : Type := list (JsString * SqlValue).
Definition Rows : Type := list Row.

(** A thrown value: an error object, of which the program reads [code] and
    [message]; either may be undefined. *)
Record JsError : Type := mkError {
  code : option JsString;
  message : option JsString
}.

(** [new Error(msg)] *)
Definition newError (msg : JsString) : JsError := mkError None (Some msg).

(** [error.message] inside a template literal or as an argument of
    [console.error]. *)
Definition messageText (e : JsError) : JsString :=
  match message e with
  | Some m => m
  | None => lit "undefined"
  end.

Definition Buffer : Type := list N.
Definition TimerId : Type := nat.
Definition PoolId : Type := nat.

(** The pair [{ server, conn }] that [createTunnel] resolves to: the local
    listener and the SSH connection, by identity. *)
Record Tunnel : Type := mkTunnel {
  server : nat;
  conn : nat
}.

(** The mutable variables: [sshTunnel] and [idleTimer] of index.ts and the
    private field [pool] of the one [DatabaseClient], [dbClient]. *)
Record State : Type := mkState {
  sshTunnel : option Tunnel;
  idleTimer : option TimerId;
  pool : option PoolId
}.

Definition IDLE_TIMEOUT_MS : N := 5 * 60 * 1000.

(* ===================================================================== *)
(** ** Calls to the surroundings *)
(* ===================================================================== *)

(** Every call the program makes outside itself, indexed by the type of
    what it gives back. *)
Inductive Call : Type -> Type :=
| readFileSync : Call Buffer
| createTunnel (privateKey : Buffer) : Call Tunnel
| conn_on (c : nat) : Call unit
| createPool : Call PoolId
| pool_execute (p : PoolId) (sql : JsString) : Call Rows
| pool_end (p : PoolId) : Call unit
| server_close (s : nat) : Call unit
| conn_end (c : nat) : Call unit
| setTimeout (ms : N) : Call TimerId
| clearTimeout (t : TimerId) : Call unit
| console_error (line : list JsString) : Call unit
| process_exit (status : N) : Call unit.

(** The calls whose result the program awaits: control goes back to the
    event loop until the promise settles. *)
Definition awaited {X : Type} (c : Call X) : bool :=
  match c with
  | createTunnel _ | pool_execute _ _ | pool_end _ => true
  | _ => false
  end.

(** The record of a call in the trace. *)
Inductive Action : Type :=
| A_readFileSync
| A_createTunnel
| A_conn_on (c : nat)
| A_createPool
| A_execute (p : PoolId) (sql : JsString)
| A_pool_end (p : PoolId)
| A_server_close (s : nat)
| A_conn_end (c : nat)
| A_setTimeout (ms : N)
| A_clearTimeout (t : TimerId)
| A_console_error (line : list JsString)
| A_exit (status : N).

Definition action_of {X : Type} (c : Call X) : Action :=
  match c with
  | readFileSync => A_readFileSync
  | createTunnel _ => A_createTunnel
  | conn_on c => A_conn_on c
  | createPool => A_createPool
  | pool_execute p sql => A_execute p sql
  | pool_end p => A_pool_end p
  | server_close s => A_server_close s
  | conn_end c => A_conn_end c
  | setTimeout ms => A_setTimeout ms
  | clearTimeout t => A_clearTimeout t
  | console_error l => A_console_error l
  | process_exit n => A_exit n
  end.

(** The surroundings: what each fallible call gives at each position of the
    trace, and the two environment variables that reach an output. *)
Record Env : Type := mkEnv {
  fs_result : nat -> JsError + Buffer;
  tunnel_result : nat -> JsError + Tunnel;
  execute_result : nat -> JsString -> JsError + Rows;
  pool_end_result : nat -> JsError + unit;
  server_close_result : nat -> JsError + unit;
  conn_end_result : nat -> JsError + unit;
  DB_HOST : option JsString;
  DB_NAME : option JsString
}.

(** The process as a whole: the variables, the calls made so far, the armed
    timers with their due times, the SSH connections whose [close] and
    [error] signals are subscribed, the clock, and whether the process has
    exited. *)
Record World : Type := mkWorld {
  vars : State;
  trace : list Action;
  pending : list (TimerId * N);
  listeners : list nat;
  now : N;
  exited : bool
}.

Definition initial : World :=
  mkWorld (mkState None None None) [] [] [] 0 false.

Definition set_vars (w : World) (s : State) : World :=
  mkWorld s (trace w) (pending w) (listeners w) (now w) (exited w).

Definition set_pending (w : World) (p : list (TimerId * N)) : World :=
  mkWorld (vars w) (trace w) p (listeners w) (now w) (exited w).

Definition record (a : Action) (w : World) : World :=
  mkWorld (vars w) (trace w ++ [a]) (pending w) (listeners w) (now w)
          (exited w).

Definition disarm (t : TimerId) (p : list (TimerId * N)) : list (TimerId * N) :=
  filter (fun x => negb (Nat.eqb (fst x) t)) p.

(** What a call gives back at position [tick] of the trace.  Timers and
    pools are named by the position at which they are created. *)
Definition respond (env : Env) (tick : nat) {X : Type} (c : Call X)
  : JsError + X :=
  match c in Call X return JsError + X with
  | readFileSync => fs_result env tick
  | createTunnel _ => tunnel_result env tick
  | conn_on _ => inr tt
  | createPool => inr tick
  | pool_execute _ sql => execute_result env tick sql
  | pool_end _ => pool_end_result env tick
  | server_close _ => server_close_result env tick
  | conn_end _ => conn_end_result env tick
  | setTimeout _ => inr tick
  | clearTimeout _ => inr tt
  | console_error _ => inr tt
  | process_exit _ => inr tt
  end.

(** What a call changes outside the variables. *)
Definition effect {X : Type} (c : Call X) (w : World) : World :=
  let w' := record (action_of c) w in
  match c with
  | setTimeout ms =>
      set_pending w' ((length (trace w), now w + ms) :: pending w)
  | clearTimeout t => set_pending w' (disarm t (pending w))
  | conn_on c =>
      mkWorld (vars w') (trace w') (pending w') (c :: listeners w) (now w')
              (exited w')
  | process_exit _ =>
      mkWorld (vars w') (trace w') (pending w') (listeners w') (now w') true
  | _ => w'
  end.

(* ===================================================================== *)
(** ** Programs *)
(* ===================================================================== *)

(** A function body of the source: it returns, throws, reads or writes the
    variables, or makes a call and goes on with what the call gave (a
    thrown or rejected error on the left, a value on the right). *)
Inductive Prog (A : Type) : Type :=
| Ret (a : A)
| Throw (e : JsError)
| Get (k : State -> Prog A)
| Put (s : State) (k : Prog A)
| Do (X : Type) (c : Call X) (k : JsError + X -> Prog A).

Arguments Ret {A} a.
Arguments Throw {A} e.
Arguments Get {A} k.
Arguments Put {A} s k.
Arguments Do {A X} c k.

Fixpoint bind {A B : Type} (p : Prog A) (f : A -> Prog B) : Prog B :=
  match p with
  | Ret a => f a
  | Throw e => Throw e
  | Get k => Get (fun s => bind (k s) f)
  | Put s k => Put s (bind k f)
  | Do c k => Do c (fun r => bind (k r) f)
  end.

(** [try { p } catch (error) { h error }] *)
Fixpoint try_catch {A : Type} (p : Prog A) (h : JsError -> Prog A) : Prog A :=
  match p with
  | Ret a => Ret a
  | Throw e => h e
  | Get k => Get (fun s => try_catch (k s) h)
  | Put s k => Put s (try_catch k h)
  | Do c k => Do c (fun r => try_catch (k r) h)
  end.

Declare Scope prog_scope.
Delimit Scope prog_scope with prog.
Bind Scope prog_scope with Prog.

Notation "x <- p ;; q" := (bind p (fun x => q))
  (at level 61, p at next level, right associativity) : prog_scope.
Notation "p ;; q" := (bind p (fun _ => q))
  (at level 61, right associativity) : prog_scope.

Local Open Scope prog_scope.

(** A call whose failure is thrown where it is made. *)
Definition call {X : Type} (c : Call X) : Prog X :=
  Do c (fun r => match r with inl e => Throw e | inr x => Ret x end).

Definition get : Prog State := Get (fun s => Ret s).

Definition set_sshTunnel (v : option Tunnel) : Prog unit :=
  Get (fun s => Put (mkState v (idleTimer s) (pool s)) (Ret tt)).

Definition set_idleTimer (v : option TimerId) : Prog unit :=
  Get (fun s => Put (mkState (sshTunnel s) v (pool s)) (Ret tt)).

Definition set_pool (v : option PoolId) : Prog unit :=
  Get (fun s => Put (mkState (sshTunnel s) (idleTimer s) v) (Ret tt)).

(** How a function call ends. *)
Inductive Outcome (A : Type) : Type :=
| Returned (a : A)
| Thrown (e : JsError).

Arguments Returned {A} a.
Arguments Thrown {A} e.

(** A program run to completion, with nothing else of the process running
    in between. *)
Fixpoint run {A : Type} (env : Env) (p : Prog A) (w : World)
  : Outcome A * World :=
  match p with
  | Ret a => (Returned a, w)
  | Throw e => (Thrown e, w)
  | Get k => run env (k (vars w)) w
  | Put s k => run env k (set_vars w s)
  | Do c k =>
      run env (k (respond env (List.length (trace w)) c)) (effect c w)
  end.

(** A program run up to its next awaited call: it has finished, or it is
    suspended with the rest of its body, to be resumed when the promise
    settles. *)
Inductive Task (A : Type) : Type :=
| Finished (o : Outcome A)
| Suspended (rest : Prog A).

Arguments Finished {A} o.
Arguments Suspended {A} rest.

Fixpoint advance {A : Type} (env : Env) (p : Prog A) (w : World)
  : Task A * World :=
  match p with
  | Ret a => (Finished (Returned a), w)
  | Throw e => (Finished (Thrown e), w)
  | Get k => advance env (k (vars w)) w
  | Put s k => advance env k (set_vars w s)
  | Do c k =>
      let rest := k (respond env (List.length (trace w)) c) in
      if awaited c then (Suspended rest, effect c w)
      else advance env rest (effect c w)
  end.

Definition resume {A : Type} (env : Env) (t : Task A) (w : World)
  : Task A * World :=
  match t with
  | Finished o => (Finished o, w)
  | Suspended rest => advance env rest w
  end.

(** Several invocations in flight: the event loop resumes the task named by
    each element of the schedule in turn, up to its next awaited call. *)
Fixpoint resume_nth {A : Type} (env : Env) (i : nat) (ts : list (Task A))
  (w : World) : list (Task A) * World :=
  match ts with
  | [] => ([], w)
  | t :: ts' =>
      match i with
      | O => let (t', w') := resume env t w in (t' :: ts', w')
      | S j => let (ts'', w') := resume_nth env j ts' w in (t :: ts'', w')
      end
  end.

Fixpoint interleave {A : Type} (env : Env) (schedule : list nat)
  (ts : list (Task A)) (w : World) : list (Task A) * World :=
  match schedule with
  | [] => (ts, w)
  | i :: rest =>
      let (ts', w') := resume_nth env i ts w in interleave env rest ts' w'
  end.

(* ===================================================================== *)
(** ** database.ts: DatabaseClient *)
(* ===================================================================== *)

Module DatabaseClient.

Definition ensurePool : Prog PoolId :=
  s <- get ;;
  match pool s with
  | Some p => Ret p
  | None => p <- call createPool ;; set_pool (Some p) ;; Ret p
  end.

Definition query (sql : JsString) : Prog Rows :=
  p <- ensurePool ;;
  call (pool_execute p sql).

Definition testConnection : Prog bool :=
  try_catch (query (lit "SELECT 1") ;; Ret true) (fun _ => Ret false).

Definition close : Prog unit :=
  s <- get ;;
  match pool s with
  | Some p => call (pool_end p) ;; set_pool None
  | None => Ret tt
  end.

End DatabaseClient.

(* ===================================================================== *)
(** ** index.ts: tunnel, idle timer and query orchestration *)
(* ===================================================================== *)

Definition openTunnel : Prog bool :=
  s <- get ;;
  match sshTunnel s with
  | Some _ => Ret true
  | None =>
      privateKey <- call readFileSync ;;
      try_catch
        (t <- call (createTunnel privateKey) ;;
         set_sshTunnel (Some t) ;;
         call (conn_on (conn t)) ;;
         call (console_error [lit "SSH tunnel opened"]) ;;
         Ret true)
        (fun error =>
           call (console_error
                   [lit "Failed to open SSH tunnel:"; messageText error]) ;;
           Ret false)
  end.

(** The two listeners that [openTunnel] puts on the SSH connection. *)
Definition on_conn_close : Prog unit :=
  call (console_error [lit "SSH connection closed"]) ;;
  set_sshTunnel None.

Definition on_conn_error (err : JsError) : Prog unit :=
  call (console_error [lit "SSH connection error:"; messageText err]) ;;
  set_sshTunnel None.

Definition closeTunnel : Prog unit :=
  (s <- get ;;
   match idleTimer s with
   | Some t => call (clearTimeout t) ;; set_idleTimer None
   | None => Ret tt
   end) ;;
  DatabaseClient.close ;;
  s <- get ;;
  match sshTunnel s with
  | Some t =>
      try_catch
        (call (server_close (server t)) ;; call (conn_end (conn t)))
        (fun _ => Ret tt) ;;
      set_sshTunnel None ;;
      call (console_error [lit "SSH tunnel closed (idle timeout)"])
  | None => Ret tt
  end.

Definition resetIdleTimer : Prog unit :=
  (s <- get ;;
   match idleTimer s with
   | Some t => call (clearTimeout t)
   | None => Ret tt
   end) ;;
  t <- call (setTimeout IDLE_TIMEOUT_MS) ;;
  set_idleTimer (Some t).

Definition ensureConnection : Prog unit :=
  s <- get ;;
  match sshTunnel s with
  | Some _ => Ret tt
  | None =>
      ok <- openTunnel ;;
      if ok then Ret tt
      else Throw (newError
                    (lit "Could not establish SSH tunnel to database server"))
  end.

Definition code_is (e : JsError) (s : string) : bool :=
  match code e with
  | Some c => str_eqb c (lit s)
  | None => false
  end.

(** The condition of the [catch] branch of [runQuery]. *)
Definition isTransient (error : JsError) : bool :=
  code_is error "ECONNREFUSED" ||
  code_is error "ECONNRESET" ||
  code_is error "PROTOCOL_CONNECTION_LOST" ||
  match message error with
  | Some m => includes m (lit "Connection lost")
  | None => false
  end.

Definition runQuery {T : Type} (queryFn : Prog T) : Prog T :=
  ensureConnection ;;
  try_catch
    (result <- queryFn ;;
     resetIdleTimer ;;
     Ret result)
    (fun error =>
       if isTransient error then
         call (console_error [lit "Connection lost, reconnecting..."]) ;;
         closeTunnel ;;
         ensureConnection ;;
         result <- queryFn ;;
         resetIdleTimer ;;
         Ret result
       else Throw error).

(* ===================================================================== *)
(** ** index.ts: the tool-call handler *)
(* ===================================================================== *)

(** The value handed to [JSON.stringify]. *)
Inductive JsonScalar : Type :=
| J_undefined
| J_bool (b : bool)
| J_string (s : JsString).

Inductive JsonValue : Type :=
| J_rows (r : Rows)
| J_object (fields : list (string * JsonScalar)).

(** The text of a result: [JSON.stringify(v, null, 2)], kept as the value
    it serialises, or a string built by the handler itself. *)
Inductive Text : Type :=
| JSON_stringify (v : JsonValue)
| Plain (s : JsString).

Record Content : Type := mkContent {
  type : JsString;
  text : Text
}.

Record ToolResult : Type := mkToolResult {
  content : list Content
}.

Definition text_result (t : Text) : ToolResult :=
  mkToolResult [mkContent (lit "text") t].

(** [request.params]: the tool name and the arguments object, which the
    protocol allows to be absent, as is each of its properties. *)
Record ToolArguments : Type := mkArgs {
  sql : option JsString;
  table : option JsString
}.

Record CallToolParams : Type := mkParams {
  name : JsString;
  arguments : option ToolArguments
}.

(** The TypeError of a property read on [undefined]. *)
Definition typeError (p : string) : JsError :=
  newError
    (lit "Cannot read properties of undefined (reading '" ++ lit p ++ lit "')").

(** [(args as any).p]: reading a property of [undefined] throws. *)
Definition property {V : Type} (args : option ToolArguments) (p : string)
  (field : ToolArguments -> option V) : Prog (option V) :=
  match args with
  | Some a => Ret (field a)
  | None => Throw (typeError p)
  end.

(** The receiver of a method call ([sql.trim()], [table.replace(...)]):
    [undefined] throws. *)
Definition receiver {V : Type} (v : option V) (method : string) : Prog V :=
  match v with
  | Some x => Ret x
  | None => Throw (typeError method)
  end.

Definition js_option (v : option JsString) : JsonScalar :=
  match v with
  | Some s => J_string s
  | None => J_undefined
  end.

(** The body of the [try] block of the handler. *)
Definition dispatch (env : Env) (params : CallToolParams) : Prog ToolResult :=
  let args := arguments params in
  if str_eqb (name params) (lit "read_query") then
    sql_arg <- property args "sql" sql ;;
    sql <- receiver sql_arg "trim" ;;
    if negb (isReadOnlyQuery sql) then
      Throw (newError
               (lit "Only SELECT, SHOW, and DESCRIBE queries are allowed"))
    else
      results <- runQuery (DatabaseClient.query sql) ;;
      Ret (text_result (JSON_stringify (J_rows results)))
  else if str_eqb (name params) (lit "list_tables") then
    results <- runQuery (DatabaseClient.query (lit "SHOW TABLES")) ;;
    Ret (text_result (JSON_stringify (J_rows results)))
  else if str_eqb (name params) (lit "describe_table") then
    table_arg <- property args "table" table ;;
    table <- receiver table_arg "replace" ;;
    let sanitized := sanitizeTableName table in
    results <-
      runQuery (DatabaseClient.query (lit "DESCRIBE " ++ sanitized)) ;;
    Ret (text_result (JSON_stringify (J_rows results)))
  else if str_eqb (name params) (lit "connect_db") then
    ensureConnection ;;
    isConnected <- DatabaseClient.testConnection ;;
    resetIdleTimer ;;
    s <- get ;;
    Ret (text_result
           (JSON_stringify
              (J_object
                 [("connected"%string, J_bool isConnected);
                  ("host"%string, js_option (DB_HOST env));
                  ("database"%string, js_option (DB_NAME env));
                  ("tunnel"%string,
                   J_string
                     (match sshTunnel s with
                      | Some _ => lit "open"
                      | None => lit "closed"
                      end))])))
  else
    Throw (newError (lit "Unknown tool: " ++ name params)).

(** The handler registered for [CallToolRequestSchema]. *)
Definition handleCallTool (env : Env) (params : CallToolParams)
  : Prog ToolResult :=
  try_catch (dispatch env params)
    (fun error =>
       Ret (text_result (Plain (lit "Error: " ++ messageText error)))).

(** The listener that [main] puts on SIGINT. *)
Definition on_sigint : Prog unit :=
  call (console_error [lit "Shutting down..."]) ;;
  closeTunnel ;;
  call (process_exit 0).

(* ===================================================================== *)
(** ** The process as a transition system *)
(* ===================================================================== *)

(** What the event loop can deliver.  Each listener runs to completion
    before the next event is taken. *)
Inductive Event : Type :=
| ToolCall (params : CallToolParams)
| TimerDue (t : TimerId)
| ConnClose (c : nat)
| ConnError (c : nat) (err : JsError)
| Sigint
| Elapse (d : N).

Definition due_time (t : TimerId) (p : list (TimerId * N)) : option N :=
  match find (fun x => Nat.eqb (fst x) t) p with
  | Some x => Some (snd x)
  | None => None
  end.

Definition subscribed (c : nat) (w : World) : bool :=
  existsb (Nat.eqb c) (listeners w).

(** Time does not pass beyond the due time of an armed timer. *)
Definition may_elapse (d : N) (w : World) : bool :=
  forallb (fun x => now w + d <=? snd x) (pending w).

Definition after {A : Type} (env : Env) (p : Prog A) (w : World) : World :=
  snd (run env p w).

(** One event; [None] when the event cannot happen in [w]. *)
Definition step (env : Env) (w : World) (ev : Event) : option World :=
  if exited w then None
  else
    match ev with
    | ToolCall params => Some (after env (handleCallTool env params) w)
    | TimerDue t =>
        match due_time t (pending w) with
        | Some due =>
            if due <=? now w then
              Some (after env closeTunnel
                      (set_pending w (disarm t (pending w))))
            else None
        | None => None
        end
    | ConnClose c =>
        if subscribed c w then Some (after env on_conn_close w) else None
    | ConnError c err =>
        if subscribed c w then Some (after env (on_conn_error err) w)
        else None
    | Sigint => Some (after env on_sigint w)
    | Elapse d =>
        if may_elapse d w then
          Some (mkWorld (vars w) (trace w) (pending w) (listeners w)
                        (now w + d) (exited w))
        else None
    end.

Fixpoint steps (env : Env) (w : World) (evs : list Event) : option World :=
  match evs with
  | [] => Some w
  | ev :: rest =>
      match step env w ev with
      | Some w' => steps env w' rest
      | None => None
      end
  end.


(** The calls of one kind in a stretch of the trace. *)
Definition is_execute (a : Action) : bool :=
  match a with A_execute _ _ => true | _ => false end.

Definition is_createTunnel (a : Action) : bool :=
  match a with A_createTunnel => true | _ => false end.

Definition is_readFileSync (a : Action) : bool :=
  match a with A_readFileSync => true | _ => false end.

Definition is_pool_end (a : Action) : bool :=
  match a with A_pool_end _ => true | _ => false end.

Definition is_server_close (a : Action) : bool :=
  match a with A_server_close _ => true | _ => false end.

Definition is_teardown (a : Action) : bool :=
  match a with
  | A_pool_end _ | A_server_close _ | A_conn_end _ => true
  | _ => false
  end.

Definition count (f : Action -> bool) (l : list Action) : nat :=
  List.length (filter f l).

(** The calls made between two worlds of one run. *)
Definition since (w w' : World) : list Action :=
  skipn (List.length (trace w)) (trace w').

(* ===================================================================== *)
(** ** The specification's wording, for comparison with the code *)
(* ===================================================================== *)

(** The three verbs of a read-only statement. *)
Definition spec_verbs : list JsString :=
  [lit "select"; lit "show"; lit "describe"].

Fixpoint take_while (f : N -> bool) (s : JsString) : JsString :=
  match s with
  | [] => []
  | c :: s' => if f c then c :: take_while f s' else []
  end.

(** The leading keyword of a statement as the specification has it: the
    first word of the statement, trimmed and with case ignored. *)
Definition spec_leading_keyword (sql : JsString) : JsString :=
  take_while isWordUnit (toLowerCase (trim sql)).

(** A transient-connection error as the specification has it: the code is
    one of the three, or the message contains [Connection lost]. *)
Definition spec_transient (e : JsError) : Prop :=
  code e = Some (lit "ECONNREFUSED") \/
  code e = Some (lit "ECONNRESET") \/
  code e = Some (lit "PROTOCOL_CONNECTION_LOST") \/
  exists m before rest,
    message e = Some m /\ m = before ++ lit "Connection lost" ++ rest.

(** A [close] or [error] signal of an SSH connection that arrives while a
    tunnel handle is set. *)
Definition finds_handle (w : World) (ev : Event) : bool :=
  match ev with
  | ConnClose _ | ConnError _ _ =>
      match sshTunnel (vars w) with
      | Some _ => true
      | None => false
      end
  | _ => false
  end.



(* ===================================================================== *)
(** ** Reasoning about runs *)
(* ===================================================================== *)

(** The trace only grows. *)
Definition extends (w w' : World) : Prop :=
  exists l, trace w' = trace w ++ l.

(** Every call that a program can make, on any path, satisfies [P]. *)
Fixpoint all_calls {A : Type} (P : Action -> Prop) (p : Prog A) : Prop :=
  match p with
  | Ret _ => True
  | Throw _ => True
  | Get k => forall s, all_calls P (k s)
  | Put _ k => all_calls P k
  | Do c k => P (action_of c) /\ forall r, all_calls P (k r)
  end.

Definition never (f : Action -> bool) (a : Action) : Prop := f a = false.

(** From a world where [P] holds, the program ends in a world and with an
    outcome related by [Q], whatever the surroundings answer. *)
Definition hoare {A : Type} (P : World -> Prop) (p : Prog A)
  (Q : Outcome A -> World -> Prop) : Prop :=
  forall env w, P w -> Q (fst (run env p w)) (snd (run env p w)).

(** The statement of every [pool.execute] is [q]. *)
Definition executes_only (q : JsString) (a : Action) : Prop :=
  forall p s, a = A_execute p s -> s = q.

(* ===================================================================== *)
(** ** Surroundings used in the examples *)
(* ===================================================================== *)

Definition econnreset : JsError :=
  mkError (Some (lit "ECONNRESET")) (Some (lit "read ECONNRESET")).

Definition no_such_table : JsError :=
  mkError (Some (lit "ER_NO_SUCH_TABLE"))
          (Some (lit "Table 'database.missing' doesn't exist")).

Definition refused : JsError :=
  mkError (Some (lit "ECONNREFUSED")) (Some (lit "connect ECONNREFUSED")).

(** Everything succeeds; the tunnel opened at position [n] has listener and
    connection [n]. *)
Definition healthy : Env :=
  mkEnv (fun _ => inr []) (fun n => inr (mkTunnel n n))
        (fun _ _ => inr []) (fun _ => inr tt) (fun _ => inr tt)
        (fun _ => inr tt) (Some (lit "localhost")) (Some (lit "database")).

(** The tunnel opens, every statement fails with [err]. *)
Definition failing_queries (err : JsError) : Env :=
  mkEnv (fun _ => inr []) (fun n => inr (mkTunnel n n))
        (fun _ _ => inl err) (fun _ => inr tt) (fun _ => inr tt)
        (fun _ => inr tt) (Some (lit "localhost")) (Some (lit "database")).

(** The tunnel opens once, at position 1 of the trace; later attempts are
    refused.  Every statement fails with a connection reset. *)
Definition tunnel_once : Env :=
  mkEnv (fun _ => inr [])
        (fun n => if Nat.eqb n 1 then inr (mkTunnel n n) else inl refused)
        (fun _ _ => inl econnreset) (fun _ => inr tt) (fun _ => inr tt)
        (fun _ => inr tt) (Some (lit "localhost")) (Some (lit "database")).

(** Everything succeeds but the statement made at position 5 of the trace,
    which fails with a connection reset. *)
Definition reset_once : Env :=
  mkEnv (fun _ => inr []) (fun n => inr (mkTunnel n n))
        (fun n _ => if Nat.eqb n 5 then inl econnreset else inr [])
        (fun _ => inr tt) (fun _ => inr tt) (fun _ => inr tt)
        (Some (lit "localhost")) (Some (lit "database")).

Definition enoent : JsError :=
  mkError (Some (lit "ENOENT"))
          (Some (lit "ENOENT: no such file or directory, open ''")).

(** The private key cannot be read. *)
Definition key_missing : Env :=
  mkEnv (fun _ => inl enoent) (fun n => inr (mkTunnel n n))
        (fun _ _ => inr []) (fun _ => inr tt) (fun _ => inr tt)
        (fun _ => inr tt) (Some (lit "localhost")) (Some (lit "database")).

(** Every attempt to open the tunnel is refused. *)
Definition tunnel_refused : Env :=
  mkEnv (fun _ => inr []) (fun _ => inl refused)
        (fun _ _ => inr []) (fun _ => inr tt) (fun _ => inr tt)
        (fun _ => inr tt) (Some (lit "localhost")) (Some (lit "database")).

(** Everything succeeds but [pool.end()], which rejects. *)
Definition pool_end_rejects : Env :=
  mkEnv (fun _ => inr []) (fun n => inr (mkTunnel n n))
        (fun _ _ => inr []) (fun _ => inl econnreset) (fun _ => inr tt)
        (fun _ => inr tt) (Some (lit "localhost")) (Some (lit "database")).

Definition tool (n : string) : CallToolParams := mkParams (lit n) None.

Definition read_query (q : string) : CallToolParams :=
  mkParams (lit "read_query") (Some (mkArgs (Some (lit q)) None)).

(** One attempt of [runQuery]: the connection is ensured, the query is
    made, the idle timer is reset. *)
Definition attempt {T : Type} (queryFn : Prog T) : Prog T :=
  ensureConnection ;; result <- queryFn ;; resetIdleTimer ;; Ret result.

(** The tunnel handle is set. *)
Definition tunnel_up (w : World) : Prop := sshTunnel (vars w) <> None.

(* ===================================================================== *)
(** ** index.ts: the list of tools *)
(* ===================================================================== *)

(** One entry of [properties] of an input schema. *)
Record SchemaProperty : Type := mkProperty {
  property_name : string;
  property_type : JsString;
  property_description : JsString
}.

(** [inputSchema]; [required] is absent from two of the four schemas. *)
Record InputSchema : Type := mkSchema {
  schema_type : JsString;
  properties : list SchemaProperty;
  required : option (list string)
}.

Record Tool : Type := mkTool {
  tool_name : JsString;
  description : JsString;
  inputSchema : InputSchema
}.

(** What the handler registered for [ListToolsRequestSchema] returns. *)
Definition listTools : list Tool :=
  [ mkTool (lit "read_query")
      (lit "Execute a read-only SELECT query on the VoiceText database")
      (mkSchema (lit "object")
         [mkProperty "sql" (lit "string")
            (lit "SELECT query to execute (read-only)")]
         (Some ["sql"%string]));
    mkTool (lit "list_tables")
      (lit "List all tables in the VoiceText database")
      (mkSchema (lit "object") [] None);
    mkTool (lit "describe_table")
      (lit "Show the structure/schema of a specific table")
      (mkSchema (lit "object")
         [mkProperty "table" (lit "string")
            (lit "Name of the table to describe")]
         (Some ["table"%string]));
    mkTool (lit "connect_db")
      (lit "Test database connection health")
      (mkSchema (lit "object") [] None) ].

(** The property [p] of the arguments object, for the two properties the
    handler reads. *)
Definition argument (p : string) (args : option ToolArguments)
  : option JsString :=
  match args with
  | None => None
  | Some a =>
      if String.eqb p "sql" then sql a
      else if String.eqb p "table" then table a
      else None
  end.

(* ===================================================================== *)
(** ** Further notions used in the properties *)
(* ===================================================================== *)

Definition is_createPool (a : Action) : bool :=
  match a with A_createPool => true | _ => false end.

(** The armed timers are the idle timer alone: none when [idleTimer] is
    null, and exactly the one that [idleTimer] holds otherwise. *)
Definition timers_tracked (w : World) : Prop :=
  match idleTimer (vars w) with
  | Some t => exists due, pending w = [(t, due)]
  | None => pending w = []
  end.

(** The timers are tracked and the clock reads [n]. *)
Definition tracked_at (n : N) (w : World) : Prop :=
  timers_tracked w /\ now w = n.

(** The idle timer is armed, alone, and due [IDLE_TIMEOUT_MS] after [n]. *)
Definition armed_at (n : N) (w : World) : Prop :=
  (exists t, idleTimer (vars w) = Some t /\
             pending w = [(t, n + IDLE_TIMEOUT_MS)]) /\ now w = n.

(** What is left of [DatabaseClient.query] once [pool.execute] has been
    called: the rows are returned, or the rejection is thrown. *)
Definition settle (r : JsError + Rows) : Prog Rows :=
  match r with
  | inl e => Throw e
  | inr rows => Ret rows
  end.

(** A task of a set of concurrent queries: a query not yet started, one
    that awaits [pool.execute], or one that has finished. *)
Definition query_task (t : Task Rows) : Prop :=
  (exists q, t = Suspended (DatabaseClient.query q)) \/
  (exists r, t = Suspended (settle r)) \/
  (exists o, t = Finished o).

(** Whether a pool exists, as a number. *)
Definition pools (w : World) : nat :=
  match pool (vars w) with
  | Some _ => 1
  | None => 0
  end.

(* ===================================================================== *)
(** * Properties *)
(* ===================================================================== *)

(** ** Strings *)

Example isReadOnlyQuery_select :
  isReadOnlyQuery (lit "  SeLeCt 1") = true.
Proof. reflexivity. Qed.

Example isReadOnlyQuery_drop :
  isReadOnlyQuery (lit "DROP TABLE x") = false.
Proof. reflexivity. Qed.

Example sanitizeTableName_injection :
  sanitizeTableName (lit "users; DROP TABLE x--") = lit "usersDROPTABLEx".
Proof. reflexivity. Qed.

Example isTransient_connection_lost :
  isTransient (newError (lit "Error: Connection lost: server closed")) = true.
Proof. reflexivity. Qed.

Lemma str_eqb_eq (a b : JsString) : str_eqb a b = true <-> a = b.
Proof.
  revert b; induction a as [|x a IH]; intros [|y b]; simpl;
    try (split; (discriminate || reflexivity)).
  unfold unit_eqb. rewrite andb_true_iff, N.eqb_eq, IH.
  split; [intros [-> ->]; reflexivity | intros H; inversion H; auto].
Qed.

Lemma startsWith_prefix (s p : JsString) :
  startsWith s p = true <-> exists rest, s = p ++ rest.
Proof.
  revert s; induction p as [|x p IH]; intros s; simpl.
  - split; [exists s; reflexivity | reflexivity].
  - destruct s as [|y s].
    + split; [discriminate | intros [rest H]; discriminate].
    + unfold unit_eqb. rewrite andb_true_iff, N.eqb_eq, IH. split.
      * intros [-> [rest ->]]. exists rest; reflexivity.
      * intros [rest H]. inversion H; subst. split; [reflexivity|].
        exists rest; reflexivity.
Qed.

Lemma includes_infix (s p : JsString) :
  includes s p = true <-> exists before rest, s = before ++ p ++ rest.
Proof.
  induction s as [|c s IH]; simpl.
  - rewrite orb_false_r, startsWith_prefix. split.
    + intros [rest H]. exists [], rest. exact H.
    + intros [before [rest H]]. destruct before as [|b before].
      * exists rest. exact H.
      * discriminate.
  - rewrite orb_true_iff, startsWith_prefix, IH. split.
    + intros [[rest H] | [before [rest H]]].
      * exists [], rest. exact H.
      * exists (c :: before), rest. simpl. now rewrite H.
    + intros [before [rest H]]. destruct before as [|b before].
      * left. exists rest. exact H.
      * right. simpl in H. inversion H; subst. exists before, rest.
        reflexivity.
Qed.

Lemma replaceClass_delete (cls : N -> bool) (s : JsString) :
  replaceClass cls [] s = filter (fun c => negb (cls c)) s.
Proof.
  induction s as [|c s IH]; simpl; [reflexivity|].
  destruct (cls c); simpl; now rewrite IH.
Qed.

Lemma sanitizeTableName_filter (t : JsString) :
  sanitizeTableName t = filter isWordUnit t.
Proof.
  unfold sanitizeTableName. rewrite replaceClass_delete.
  apply filter_ext. intros c. apply negb_involutive.
Qed.

Lemma filter_twice {X : Type} (f : X -> bool) (l : list X) :
  filter f (filter f l) = filter f l.
Proof.
  induction l as [|x l IH]; simpl; [reflexivity|].
  destruct (f x) eqn:E; simpl; rewrite ?E, IH; reflexivity.
Qed.

Lemma isReadOnlyQuery_prefix (sql : JsString) :
  isReadOnlyQuery sql = true <->
  exists verb rest,
    In verb spec_verbs /\ toLowerCase (trim sql) = verb ++ rest.
Proof.
  unfold isReadOnlyQuery. cbv zeta.
  rewrite !orb_true_iff, !startsWith_prefix. unfold spec_verbs. split.
  - intros [[[r H] | [r H]] | [r H]]; eexists _, r; (split; [|exact H]);
      simpl; auto.
  - intros [verb [r [Hin H]]]. simpl in Hin.
    destruct Hin as [<- | [<- | [<- | []]]]; eauto.
Qed.

Lemma code_is_eq (e : JsError) (s : string) :
  code_is e s = true <-> code e = Some (lit s).
Proof.
  unfold code_is. destruct (code e) as [c|].
  - rewrite str_eqb_eq. split; [intros ->; reflexivity | congruence].
  - split; discriminate.
Qed.

Lemma isTransient_spec (e : JsError) :
  isTransient e = true <-> spec_transient e.
Proof.
  unfold isTransient, spec_transient.
  rewrite !orb_true_iff, !code_is_eq. split.
  - intros [[[H | H] | H] | H]; auto.
    destruct (message e) as [m|]; [|discriminate].
    apply includes_infix in H. destruct H as [b [r H]].
    right; right; right. exists m, b, r. auto.
  - intros [H | [H | [H | [m [b [r [Hm H]]]]]]]; auto.
    right. rewrite Hm. apply includes_infix. eauto.
Qed.

Lemma isTransient_false (e : JsError) :
  ~ spec_transient e -> isTransient e = false.
Proof.
  intros H. destruct (isTransient e) eqn:E; [|reflexivity].
  apply isTransient_spec in E. contradiction.
Qed.

(** ** Running programs *)

Lemma run_bind {A B : Type} (env : Env) (p : Prog A) (f : A -> Prog B)
  (w : World) :
  run env (bind p f) w =
  match run env p w with
  | (Returned a, w') => run env (f a) w'
  | (Thrown e, w') => (Thrown e, w')
  end.
Proof.
  revert w. induction p as [a|e|k IH|s k IH|X c k IH]; intros w; simpl; auto.
Qed.

Lemma run_try_catch {A : Type} (env : Env) (p : Prog A)
  (h : JsError -> Prog A) (w : World) :
  run env (try_catch p h) w =
  match run env p w with
  | (Returned a, w') => (Returned a, w')
  | (Thrown e, w') => run env (h e) w'
  end.
Proof.
  revert w. induction p as [a|e|k IH|s k IH|X c k IH]; intros w; simpl; auto.
Qed.

(** A run suspended at its awaited calls and resumed each time at once is
    a run to completion. *)
Lemma run_advance {A : Type} (env : Env) (p : Prog A) (w : World) :
  run env p w =
  match advance env p w with
  | (Finished o, w') => (o, w')
  | (Suspended rest, w') => run env rest w'
  end.
Proof.
  revert w. induction p as [a|e|k IH|s k IH|X c k IH]; intros w; simpl; auto.
  destruct (awaited c); [reflexivity | apply IH].
Qed.

Lemma extends_refl (w : World) : extends w w.
Proof. exists []. now rewrite app_nil_r. Qed.

Lemma extends_trans (w1 w2 w3 : World) :
  extends w1 w2 -> extends w2 w3 -> extends w1 w3.
Proof.
  intros [l1 H1] [l2 H2]. exists (l1 ++ l2). now rewrite H2, H1, app_assoc.
Qed.

Lemma trace_effect {X : Type} (c : Call X) (w : World) :
  trace (effect c w) = trace w ++ [action_of c].
Proof. destruct c; reflexivity. Qed.

Lemma run_extends {A : Type} (env : Env) (p : Prog A) (w : World) :
  extends w (snd (run env p w)).
Proof.
  revert w. induction p as [a|e|k IH|s k IH|X c k IH]; intros w; simpl.
  - apply extends_refl.
  - apply extends_refl.
  - apply IH.
  - destruct (IH (set_vars w s)) as [l H]. exists l. exact H.
  - eapply extends_trans; [|apply IH].
    exists [action_of c]. apply trace_effect.
Qed.

Lemma since_extends (w w' : World) (l : list Action) :
  trace w' = trace w ++ l -> since w w' = l.
Proof.
  intros H. unfold since. rewrite H.
  rewrite skipn_app, skipn_all, Nat.sub_diag. reflexivity.
Qed.

Lemma since_refl (w : World) : since w w = [].
Proof. apply since_extends. now rewrite app_nil_r. Qed.

Lemma since_trans (w1 w2 w3 : World) :
  extends w1 w2 -> extends w2 w3 ->
  since w1 w3 = since w1 w2 ++ since w2 w3.
Proof.
  intros [l1 H1] [l2 H2].
  rewrite (since_extends w1 w2 l1 H1), (since_extends w2 w3 l2 H2).
  apply since_extends. now rewrite H2, H1, app_assoc.
Qed.

Lemma count_app (f : Action -> bool) (l1 l2 : list Action) :
  count f (l1 ++ l2) = (count f l1 + count f l2)%nat.
Proof. unfold count. now rewrite filter_app, length_app. Qed.

(** ** Calls a program can make *)

Lemma all_calls_bind {A B : Type} (P : Action -> Prop) (p : Prog A)
  (f : A -> Prog B) :
  all_calls P p -> (forall a, all_calls P (f a)) -> all_calls P (bind p f).
Proof.
  intros Hp Hf. induction p as [a|e|k IH|s k IH|X c k IH]; simpl in *; auto.
  destruct Hp as [Hc Hk]. split; auto.
Qed.

Lemma all_calls_try_catch {A : Type} (P : Action -> Prop) (p : Prog A)
  (h : JsError -> Prog A) :
  all_calls P p -> (forall e, all_calls P (h e)) ->
  all_calls P (try_catch p h).
Proof.
  intros Hp Hh. induction p as [a|e|k IH|s k IH|X c k IH]; simpl in *; auto.
  destruct Hp as [Hc Hk]. split; auto.
Qed.

Lemma all_calls_run {A : Type} (P : Action -> Prop) (env : Env)
  (p : Prog A) (w : World) :
  all_calls P p -> Forall P (since w (after env p w)).
Proof.
  unfold after. revert w.
  induction p as [a|e|k IH|s k IH|X c k IH]; intros w Hp; simpl in *.
  - rewrite since_refl. constructor.
  - rewrite since_refl. constructor.
  - apply IH, Hp.
  - apply (IH (set_vars w s) Hp).
  - destruct Hp as [Hc Hk].
    rewrite (since_trans w (effect c w)).
    + apply Forall_app. split.
      * rewrite (since_extends w (effect c w) [action_of c]
                   (trace_effect c w)).
        constructor; [exact Hc | constructor].
      * apply IH, Hk.
    + exists [action_of c]. apply trace_effect.
    + apply run_extends.
Qed.

Lemma never_count (f : Action -> bool) (l : list Action) :
  Forall (never f) l -> count f l = 0%nat.
Proof.
  unfold count, never. induction 1 as [|a l Ha _ IH]; simpl; [reflexivity|].
  now rewrite Ha.
Qed.

Lemma never_run {A : Type} (f : Action -> bool) (env : Env) (p : Prog A)
  (w : World) :
  all_calls (never f) p -> count f (since w (after env p w)) = 0%nat.
Proof. intros H. apply never_count, all_calls_run, H. Qed.

(** ** The rules of the program logic *)

Lemma hoare_conseq {A : Type} (P P' : World -> Prop) (p : Prog A)
  (Q Q' : Outcome A -> World -> Prop) :
  hoare P' p Q' -> (forall w, P w -> P' w) ->
  (forall o w, Q' o w -> Q o w) -> hoare P p Q.
Proof. intros H HP HQ env w Hw. apply HQ, H, HP, Hw. Qed.

Lemma hoare_bind {A B : Type} (P : World -> Prop) (p : Prog A)
  (Q1 : Outcome A -> World -> Prop) (f : A -> Prog B)
  (Q : Outcome B -> World -> Prop) :
  hoare P p Q1 ->
  (forall a, hoare (Q1 (Returned a)) (f a) Q) ->
  (forall e w, Q1 (Thrown e) w -> Q (Thrown e) w) ->
  hoare P (bind p f) Q.
Proof.
  intros Hp Hf He env w Hw. rewrite run_bind.
  specialize (Hp env w Hw).
  destruct (run env p w) as [[a|e] w']; simpl in *.
  - apply Hf, Hp.
  - apply He, Hp.
Qed.

Lemma hoare_try_catch {A : Type} (P : World -> Prop) (p : Prog A)
  (Q1 : Outcome A -> World -> Prop) (h : JsError -> Prog A)
  (Q : Outcome A -> World -> Prop) :
  hoare P p Q1 ->
  (forall e, hoare (Q1 (Thrown e)) (h e) Q) ->
  (forall a w, Q1 (Returned a) w -> Q (Returned a) w) ->
  hoare P (try_catch p h) Q.
Proof.
  intros Hp Hh Ha env w Hw. rewrite run_try_catch.
  specialize (Hp env w Hw).
  destruct (run env p w) as [[a|e] w']; simpl in *.
  - apply Ha, Hp.
  - apply Hh, Hp.
Qed.

Lemma hoare_ret {A : Type} (P : World -> Prop) (a : A)
  (Q : Outcome A -> World -> Prop) :
  (forall w, P w -> Q (Returned a) w) -> hoare P (Ret a) Q.
Proof. intros H env w Hw. apply H, Hw. Qed.

Lemma hoare_throw {A : Type} (P : World -> Prop) (e : JsError)
  (Q : Outcome A -> World -> Prop) :
  (forall w, P w -> Q (Thrown e) w) -> hoare P (Throw e) Q.
Proof. intros H env w Hw. apply H, Hw. Qed.

(** ** What each function does to the variables and to the trace *)

Arguments since : simpl never.
Arguments count : simpl never.
Arguments disarm : simpl never.

(** Case analysis on everything a run depends on, innermost first. *)
Ltac case_split :=
  repeat match goal with
  | |- context [match ?x with _ => _ end] =>
      lazymatch x with
      | context [match _ with _ => _ end] => fail
      | _ => destruct x eqn:?; cbn
      end
  end.

(** The calls between two worlds whose traces are known. *)
Ltac since_now :=
  rewrite ?since_refl;
  repeat match goal with
  | |- context [since ?w ?w'] =>
      erewrite (since_extends w w')
        by (cbn; rewrite <- ?app_assoc; reflexivity)
  end;
  unfold count.

Lemma run_extends_eq {A : Type} {env : Env} {p : Prog A} {w w' : World}
  {o : Outcome A} :
  run env p w = (o, w') -> extends w w'.
Proof. intros H. pose proof (run_extends env p w) as E. now rewrite H in E. Qed.

Lemma count_since_trans (f : Action -> bool) (w1 w2 w3 : World) :
  extends w1 w2 -> extends w2 w3 ->
  count f (since w1 w3) = (count f (since w1 w2) + count f (since w2 w3))%nat.
Proof. intros H1 H2. now rewrite (since_trans w1 w2 w3 H1 H2), count_app. Qed.

Lemma never_run_eq {A : Type} (f : Action -> bool) {env : Env} {p : Prog A}
  {w w' : World} {o : Outcome A} :
  run env p w = (o, w') -> all_calls (never f) p ->
  count f (since w w') = 0%nat.
Proof.
  intros H Hp. pose proof (never_run f env p w Hp) as E.
  unfold after in E. now rewrite H in E.
Qed.

Lemma all_calls_impl {A : Type} (P Q : Action -> Prop) (p : Prog A) :
  all_calls P p -> (forall a, P a -> Q a) -> all_calls Q p.
Proof.
  intros Hp HPQ. induction p as [a|e|k IH|s k IH|X c k IH]; simpl in *; auto.
  destruct Hp as [Hc Hk]. split; auto.
Qed.

(** The calls that each function can make. *)

Ltac alphabet :=
  repeat (cbn; intros;
          match goal with
          | |- True => exact I
          | |- _ /\ _ => split
          | |- context [match ?x with _ => _ end] => destruct x
          | |- _ => solve [eauto 10]
          end).

Lemma query_calls (q : JsString) :
  all_calls (fun a => a = A_createPool \/ exists p, a = A_execute p q)
            (DatabaseClient.query q).
Proof. alphabet. Qed.

Lemma resetIdleTimer_calls :
  all_calls (fun a => (exists t, a = A_clearTimeout t) \/
                      a = A_setTimeout IDLE_TIMEOUT_MS)
            resetIdleTimer.
Proof. alphabet. Qed.

Lemma ensureConnection_calls :
  all_calls (fun a => a = A_readFileSync \/ a = A_createTunnel \/
                      (exists c, a = A_conn_on c) \/
                      exists l, a = A_console_error l)
            ensureConnection.
Proof. alphabet. Qed.

Lemma closeTunnel_calls :
  all_calls (fun a => (exists t, a = A_clearTimeout t) \/
                      (exists p, a = A_pool_end p) \/
                      (exists s, a = A_server_close s) \/
                      (exists c, a = A_conn_end c) \/
                      exists l, a = A_console_error l)
            closeTunnel.
Proof. alphabet. Qed.

(** [count f (since w w') = 0] for a run of a function that never makes a
    call of the kind [f]. *)
Ltac no_such_call H calls :=
  apply (never_run_eq _ H);
  eapply all_calls_impl; [apply calls|];
  let a := fresh "a" in
  let Ha := fresh "Ha" in
  intros a Ha; cbv beta in Ha; decompose [or ex] Ha; subst; reflexivity.

(** What each function does to the variables, and the calls it is sure to
    make. *)

Lemma query_frame (env : Env) (q : JsString) (w : World) :
  let r := run env (DatabaseClient.query q) w in
  sshTunnel (vars (snd r)) = sshTunnel (vars w) /\
  idleTimer (vars (snd r)) = idleTimer (vars w) /\
  pool (vars (snd r)) <> None /\
  (pool (vars w) <> None -> vars (snd r) = vars w) /\
  pending (snd r) = pending w /\
  count is_execute (since w (snd r)) = 1%nat.
Proof.
  destruct w as [[tn tm pl] tr pe li nw ex]. cbn.
  case_split; since_now; cbn; repeat split; congruence.
Qed.

Lemma resetIdleTimer_frame (env : Env) (w : World) :
  let r := run env resetIdleTimer w in
  fst r = Returned tt /\
  sshTunnel (vars (snd r)) = sshTunnel (vars w) /\
  pool (vars (snd r)) = pool (vars w) /\
  exists t,
    idleTimer (vars (snd r)) = Some t /\
    pending (snd r) =
      (t, now w + IDLE_TIMEOUT_MS) ::
      match idleTimer (vars w) with
      | Some t0 => disarm t0 (pending w)
      | None => pending w
      end.
Proof.
  destruct w as [[tn tm pl] tr pe li nw ex]. cbn.
  case_split; cbn; repeat split; eexists; split; reflexivity.
Qed.

Lemma ensureConnection_frame (env : Env) (w : World) :
  let r := run env ensureConnection w in
  pool (vars (snd r)) = pool (vars w) /\
  idleTimer (vars (snd r)) = idleTimer (vars w) /\
  pending (snd r) = pending w /\
  (fst r = Returned tt -> tunnel_up (snd r)) /\
  (tunnel_up w -> r = (Returned tt, w)) /\
  (forall e, fst r = Thrown e -> sshTunnel (vars (snd r)) = None) /\
  (sshTunnel (vars w) = None ->
   count is_readFileSync (since w (snd r)) = 1%nat) /\
  (fst r = Returned tt -> sshTunnel (vars w) = None ->
   count is_createTunnel (since w (snd r)) = 1%nat) /\
  (count is_createTunnel (since w (snd r)) <= 1)%nat.
Proof.
  destruct w as [[tn tm pl] tr pe li nw ex]. unfold tunnel_up. cbn.
  case_split; since_now; cbn; repeat split; try congruence; lia.
Qed.

Lemma closeTunnel_frame (env : Env) (w : World) :
  let r := run env closeTunnel w in
  match fst r with
  | Returned _ =>
      vars (snd r) = mkState None None None /\
      (pool (vars w) <> None ->
       count is_pool_end (since w (snd r)) = 1%nat) /\
      (tunnel_up w -> count is_server_close (since w (snd r)) = 1%nat)
  | Thrown e =>
      vars (snd r) = mkState (sshTunnel (vars w)) None (pool (vars w)) /\
      pool (vars w) <> None /\
      count is_teardown (since w (snd r)) = 1%nat
  end /\
  (pool (vars w) = None -> fst r = Returned tt) /\
  (forall t, idleTimer (vars w) = Some t ->
             pending (snd r) = disarm t (pending w)) /\
  (idleTimer (vars w) = None -> pending (snd r) = pending w).
Proof.
  destruct w as [[tn tm pl] tr pe li nw ex]. unfold tunnel_up. cbn.
  case_split; since_now; cbn; repeat split; try congruence.
  all: intros ? [= <-]; reflexivity.
Qed.

Lemma run_log (env : Env) (l : list JsString) (w : World) :
  run env (call (console_error l)) w =
  (Returned tt, effect (console_error l) w).
Proof. reflexivity. Qed.

Lemma log_frame (l : list JsString) (w : World) :
  vars (effect (console_error l) w) = vars w /\
  pending (effect (console_error l) w) = pending w /\
  extends w (effect (console_error l) w) /\
  since w (effect (console_error l) w) = [A_console_error l].
Proof.
  repeat split.
  - exists [A_console_error l]. reflexivity.
  - apply since_extends. reflexivity.
Qed.

Lemma dispatch_read_query (env : Env) (args : option ToolArguments) :
  dispatch env (mkParams (lit "read_query") args) =
  (sql_arg <- property args "sql" sql ;;
   sql <- receiver sql_arg "trim" ;;
   if negb (isReadOnlyQuery sql) then
     Throw (newError
              (lit "Only SELECT, SHOW, and DESCRIBE queries are allowed"))
   else
     results <- runQuery (DatabaseClient.query sql) ;;
     Ret (text_result (JSON_stringify (J_rows results)))).
Proof. reflexivity. Qed.

Lemma dispatch_list_tables (env : Env) (args : option ToolArguments) :
  dispatch env (mkParams (lit "list_tables") args) =
  (results <- runQuery (DatabaseClient.query (lit "SHOW TABLES")) ;;
   Ret (text_result (JSON_stringify (J_rows results)))).
Proof. reflexivity. Qed.

Lemma dispatch_describe_table (env : Env) (args : option ToolArguments) :
  dispatch env (mkParams (lit "describe_table") args) =
  (table_arg <- property args "table" table ;;
   table <- receiver table_arg "replace" ;;
   results <-
     runQuery
       (DatabaseClient.query (lit "DESCRIBE " ++ sanitizeTableName table)) ;;
   Ret (text_result (JSON_stringify (J_rows results)))).
Proof. reflexivity. Qed.

Lemma dispatch_connect_db (env : Env) (args : option ToolArguments) :
  dispatch env (mkParams (lit "connect_db") args) =
  (ensureConnection ;;
   isConnected <- DatabaseClient.testConnection ;;
   resetIdleTimer ;;
   s <- get ;;
   Ret (text_result
          (JSON_stringify
             (J_object
                [("connected"%string, J_bool isConnected);
                 ("host"%string, js_option (DB_HOST env));
                 ("database"%string, js_option (DB_NAME env));
                 ("tunnel"%string,
                  J_string
                    (match sshTunnel s with
                     | Some _ => lit "open"
                     | None => lit "closed"
                     end))])))).
Proof. reflexivity. Qed.

(** The calls of [runQuery] are those of its parts. *)
Lemma runQuery_calls {T : Type} (P : Action -> Prop) (q : Prog T) :
  all_calls P ensureConnection -> all_calls P closeTunnel ->
  all_calls P resetIdleTimer ->
  P (A_console_error [lit "Connection lost, reconnecting..."]) ->
  all_calls P q -> all_calls P (runQuery q).
Proof.
  intros He Hc Hr Hl Hq. unfold runQuery.
  apply all_calls_bind; [exact He | intros _].
  apply all_calls_try_catch.
  - apply all_calls_bind; [exact Hq | intros r].
    apply all_calls_bind; [exact Hr | intros _]. exact I.
  - intros e. destruct (isTransient e); [|exact I].
    apply all_calls_bind; [|intros _].
    { cbn. split; [exact Hl|]. intros [?|?]; exact I. }
    apply all_calls_bind; [exact Hc | intros _].
    apply all_calls_bind; [exact He | intros _].
    apply all_calls_bind; [exact Hq | intros r].
    apply all_calls_bind; [exact Hr | intros _]. exact I.
Qed.

Ltac static_sql :=
  repeat (cbn; intros;
          match goal with
          | |- True => exact I
          | |- _ /\ _ => split
          | |- executes_only _ _ => intros ? ? ?; congruence
          | |- context [match ?x with _ => _ end] => destruct x
          end).

Lemma runQuery_executes_only (q : JsString) :
  all_calls (executes_only q) (runQuery (DatabaseClient.query q)).
Proof. apply runQuery_calls; solve [static_sql]. Qed.

(** ** The read-only check *)

(** C2, as amended.  A statement that, trimmed and lower-cased, does not
    start with the characters of [select], [show] or [describe] is answered
    by the validation error, and the world is left as it was: no call is
    made, no tunnel is opened. *)
Theorem read_query_rejects_other_prefixes
  (env : Env) (w : World) (q : JsString) (other : option JsString) :
  (forall verb rest,
      In verb spec_verbs -> toLowerCase (trim q) <> verb ++ rest) ->
  run env
      (handleCallTool env
         (mkParams (lit "read_query") (Some (mkArgs (Some q) other)))) w =
  (Returned
     (text_result
        (Plain
           (lit "Error: Only SELECT, SHOW, and DESCRIBE queries are allowed"))),
   w).
Proof.
  intros H.
  assert (E : isReadOnlyQuery q = false).
  { destruct (isReadOnlyQuery q) eqn:E; [|reflexivity].
    apply isReadOnlyQuery_prefix in E. destruct E as [v [r [Hin E]]].
    exfalso. exact (H v r Hin E). }
  unfold handleCallTool. rewrite run_try_catch, dispatch_read_query.
  cbn [property receiver sql bind]. rewrite E. reflexivity.
Qed.

Lemma read_query_rejects_other_prefixes_witness :
  run healthy (handleCallTool healthy (read_query "DROP TABLE x")) initial =
  (Returned
     (text_result
        (Plain
           (lit "Error: Only SELECT, SHOW, and DESCRIBE queries are allowed"))),
   initial).
Proof.
  apply (read_query_rejects_other_prefixes healthy initial
           (lit "DROP TABLE x") None).
  intros verb rest Hin E. simpl in Hin.
  destruct Hin as [<- | [<- | [<- | []]]]; vm_compute in E; discriminate.
Defined.

(** C2, as stated, fails: the leading keyword of [selection from t] is
    [selection], which is none of the three verbs, and the statement is
    executed all the same. *)
Lemma read_query_accepts_longer_keyword :
  let q := lit "selection from t" in
  let w := after healthy (handleCallTool healthy (read_query "selection from t"))
                 initial in
  spec_leading_keyword q = lit "selection" /\
  ~ In (spec_leading_keyword q) spec_verbs /\
  isReadOnlyQuery q = true /\
  fst (run healthy (handleCallTool healthy (read_query "selection from t"))
           initial) =
    Returned (text_result (JSON_stringify (J_rows []))) /\
  filter is_execute (trace w) = [A_execute 4%nat q] /\
  sshTunnel (vars w) = Some (mkTunnel 1 1).
Proof.
  cbv zeta. split; [reflexivity|]. split.
  - intros H. vm_compute in H.
    destruct H as [H | [H | [H | []]]]; discriminate.
  - repeat split; vm_compute; reflexivity.
Qed.

(** ** The invocation boundary *)

(** C9. Whatever tool is named, whatever the arguments and whatever the
    surroundings answer, the handler returns a result: the result of the
    dispatch when it returns one, and otherwise the text [Error: ] followed
    by the message of the error that the dispatch threw. *)
Theorem handleCallTool_always_answers
  (env : Env) (params : CallToolParams) (w : World) :
  exists result,
    fst (run env (handleCallTool env params) w) = Returned result /\
    match fst (run env (dispatch env params) w) with
    | Returned r => result = r
    | Thrown e => result = text_result (Plain (lit "Error: " ++ messageText e))
    end.
Proof.
  unfold handleCallTool. rewrite run_try_catch.
  destruct (run env (dispatch env params) w) as [[r|e] w']; cbn.
  - exists r. split; reflexivity.
  - eexists. split; reflexivity.
Qed.

(** ** The health probe *)

Lemma testConnection_swallows (env : Env) (w : World) :
  run env DatabaseClient.testConnection w =
  match run env (DatabaseClient.query (lit "SELECT 1")) w with
  | (Returned _, w') => (Returned true, w')
  | (Thrown _, w') => (Returned false, w')
  end.
Proof.
  unfold DatabaseClient.testConnection.
  rewrite run_try_catch, run_bind.
  destruct (run env (DatabaseClient.query (lit "SELECT 1")) w) as [[r|e] w'];
    reflexivity.
Qed.

(** C10. When the tunnel is open or opens, and the probe statement fails
    with whatever error, [connect_db] does not answer with an error text:
    it answers with the status object, in which [connected] is false while
    [tunnel] reads [open]. *)
Theorem connect_db_reports_failed_probe
  (env : Env) (args : option ToolArguments) (w w0 w1 : World) (e : JsError) :
  run env ensureConnection w = (Returned tt, w0) ->
  run env (DatabaseClient.query (lit "SELECT 1")) w0 = (Thrown e, w1) ->
  fst (run env (handleCallTool env (mkParams (lit "connect_db") args)) w) =
  Returned
    (text_result
       (JSON_stringify
          (J_object
             [("connected"%string, J_bool false);
              ("host"%string, js_option (DB_HOST env));
              ("database"%string, js_option (DB_NAME env));
              ("tunnel"%string, J_string (lit "open"))]))).
Proof.
  intros H0 H1.
  unfold handleCallTool. rewrite run_try_catch, dispatch_connect_db.
  rewrite run_bind, H0, run_bind, testConnection_swallows, H1, run_bind.
  destruct (resetIdleTimer_frame env w1) as [Hr [Ht _]].
  destruct (run env resetIdleTimer w1) as [o w2].
  simpl fst in Hr; simpl snd in Ht. subst o.
  destruct (ensureConnection_frame env w) as (_ & _ & _ & Hup & _).
  rewrite H0 in Hup. specialize (Hup eq_refl). unfold tunnel_up in Hup.
  destruct (query_frame env (lit "SELECT 1") w0) as [Hq _].
  rewrite H1 in Hq. simpl snd in Hq, Hup.
  unfold get. simpl run. rewrite Ht, Hq.
  destruct (sshTunnel (vars w0)); [reflexivity | contradiction].
Qed.

Lemma connect_db_reports_failed_probe_witness :
  fst (run (failing_queries no_such_table)
           (handleCallTool (failing_queries no_such_table) (tool "connect_db"))
           initial) =
  Returned
    (text_result
       (JSON_stringify
          (J_object
             [("connected"%string, J_bool false);
              ("host"%string, J_string (lit "localhost"));
              ("database"%string, J_string (lit "database"));
              ("tunnel"%string, J_string (lit "open"))]))).
Proof.
  eapply (connect_db_reports_failed_probe
            (failing_queries no_such_table) None initial); reflexivity.
Defined.

(** ** The retry of [runQuery] *)

(** Instantiate a frame lemma at a run whose result is known. *)
Ltac frame_at F H :=
  let X := fresh "F" in
  pose proof F as X; cbv zeta in X; rewrite H in X;
  simpl fst in X; simpl snd in X.

Lemma attempt_run (env : Env) (q : JsString) (w : World) :
  run env (attempt (DatabaseClient.query q)) w =
  match run env ensureConnection w with
  | (Thrown e, w') => (Thrown e, w')
  | (Returned _, w') =>
      match run env (DatabaseClient.query q) w' with
      | (Thrown e, w'') => (Thrown e, w'')
      | (Returned rows, w'') =>
          (Returned rows, snd (run env resetIdleTimer w''))
      end
  end.
Proof.
  unfold attempt. rewrite run_bind.
  destruct (run env ensureConnection w) as [[[]|e] w']; [|reflexivity].
  rewrite run_bind.
  destruct (run env (DatabaseClient.query q) w') as [[rows|e] w''];
    [|reflexivity].
  rewrite run_bind.
  destruct (resetIdleTimer_frame env w'') as [Hr _].
  destruct (run env resetIdleTimer w'') as [o w3]. simpl in Hr. subst o.
  reflexivity.
Qed.

Lemma attempt_calls (q : JsString) :
  all_calls (fun a => a = A_readFileSync \/ a = A_createTunnel \/
                      (exists c, a = A_conn_on c) \/
                      (exists l, a = A_console_error l) \/
                      a = A_createPool \/ (exists p, a = A_execute p q) \/
                      (exists t, a = A_clearTimeout t) \/
                      a = A_setTimeout IDLE_TIMEOUT_MS)
            (attempt (DatabaseClient.query q)).
Proof.
  unfold attempt.
  apply all_calls_bind;
    [eapply all_calls_impl; [apply ensureConnection_calls|]|intros _].
  { cbv beta. intuition. }
  apply all_calls_bind;
    [eapply all_calls_impl; [apply query_calls|]|intros r].
  { cbv beta. intuition. }
  apply all_calls_bind;
    [eapply all_calls_impl; [apply resetIdleTimer_calls|]|intros _].
  { cbv beta. intuition. }
  exact I.
Qed.

Lemma attempt_frame (env : Env) (q : JsString) (w : World) :
  let r := run env (attempt (DatabaseClient.query q)) w in
  (sshTunnel (vars w) = None ->
   count is_readFileSync (since w (snd r)) = 1%nat) /\
  match run env ensureConnection w with
  | (Thrown e, w') => count is_execute (since w (snd r)) = 0%nat
  | (Returned _, w') => count is_execute (since w (snd r)) = 1%nat
  end.
Proof.
  cbv zeta. rewrite attempt_run.
  destruct (run env ensureConnection w) as [[[]|e] w'] eqn:H0.
  - pose proof (run_extends_eq H0) as X0.
    assert (Z0 : count is_execute (since w w') = 0%nat)
      by no_such_call H0 ensureConnection_calls.
    frame_at (ensureConnection_frame env w) H0.
    destruct F as (_ & _ & _ & _ & _ & _ & Er & _).
    destruct (run env (DatabaseClient.query q) w') as [[rows|e] w''] eqn:H1.
    + pose proof (run_extends_eq H1) as X1.
      frame_at (query_frame env q w') H1.
      destruct F as (_ & _ & _ & _ & _ & Qx).
      destruct (run env resetIdleTimer w'') as [o w3] eqn:H2.
      pose proof (run_extends_eq H2) as X2. simpl snd.
      assert (Z1 : count is_readFileSync (since w' w'') = 0%nat)
        by no_such_call H1 (query_calls q).
      assert (Z2 : count is_readFileSync (since w'' w3) = 0%nat)
        by no_such_call H2 resetIdleTimer_calls.
      assert (Z3 : count is_execute (since w'' w3) = 0%nat)
        by no_such_call H2 resetIdleTimer_calls.
      rewrite !(count_since_trans _ w w' w3), !(count_since_trans _ w' w'' w3);
        eauto using extends_trans.
      rewrite Z0, Z1, Z2, Z3, Qx. split; [intros Hn; rewrite (Er Hn)|];
        reflexivity.
    + pose proof (run_extends_eq H1) as X1.
      frame_at (query_frame env q w') H1.
      destruct F as (_ & _ & _ & _ & _ & Qx). simpl snd.
      assert (Z1 : count is_readFileSync (since w' w'') = 0%nat)
        by no_such_call H1 (query_calls q).
      rewrite !(count_since_trans _ w w' w''); eauto.
      rewrite Z0, Z1, Qx. split; [intros Hn; rewrite (Er Hn)|];
        reflexivity.
  - simpl snd. frame_at (ensureConnection_frame env w) H0.
    destruct F as (_ & _ & _ & _ & _ & _ & Er & _).
    split; [exact Er|]. no_such_call H0 ensureConnection_calls.
Qed.

(** An error that does not pass the test of the [catch] branch is thrown
    again as it is, whatever the query function. *)
Lemma runQuery_rethrows {T : Type} (env : Env) (queryFn : Prog T)
  (w w0 w1 : World) (e : JsError) :
  run env ensureConnection w = (Returned tt, w0) ->
  run env queryFn w0 = (Thrown e, w1) ->
  isTransient e = false ->
  run env (runQuery queryFn) w = (Thrown e, w1).
Proof.
  intros H0 H1 Hnt. unfold runQuery.
  rewrite run_bind, H0, run_try_catch, run_bind, H1, Hnt. reflexivity.
Qed.

(** C6. When the connection is there and the query fails with an error
    that is not a transient-connection error, [runQuery] throws that error
    and stops where the query failed: the query was made once; no call of
    the teardown was made; the tunnel handle is the one the query ran with
    and the pool is in place; the idle timer was not touched; and if handle
    and pool both existed before, the variables are what they were. *)
Theorem runQuery_surfaces_non_transient
  (env : Env) (q : JsString) (w w0 w1 : World) (e : JsError) :
  run env ensureConnection w = (Returned tt, w0) ->
  run env (DatabaseClient.query q) w0 = (Thrown e, w1) ->
  ~ spec_transient e ->
  run env (runQuery (DatabaseClient.query q)) w = (Thrown e, w1) /\
  count is_execute (since w w1) = 1%nat /\
  count is_teardown (since w w1) = 0%nat /\
  tunnel_up w1 /\
  sshTunnel (vars w1) = sshTunnel (vars w0) /\
  pool (vars w1) <> None /\
  idleTimer (vars w1) = idleTimer (vars w) /\
  pending w1 = pending w /\
  (tunnel_up w -> pool (vars w) <> None -> vars w1 = vars w).
Proof.
  intros H0 H1 Hnt.
  frame_at (ensureConnection_frame env w) H0.
  frame_at (query_frame env q w0) H1.
  destruct F as (Ep & Et & Epe & Eup & Esame & _).
  destruct F0 as (Qt & Qtm & Qp & Qsame & Qpe & Qx).
  pose proof (run_extends_eq H0) as X0.
  pose proof (run_extends_eq H1) as X1.
  split.
  { apply (runQuery_rethrows env _ w w0 w1 e H0 H1 (isTransient_false e Hnt)). }
  split.
  { rewrite (count_since_trans _ w w0 w1 X0 X1), Qx.
    assert (Z : count is_execute (since w w0) = 0%nat)
      by no_such_call H0 ensureConnection_calls.
    now rewrite Z. }
  split.
  { rewrite (count_since_trans _ w w0 w1 X0 X1).
    assert (Z0 : count is_teardown (since w w0) = 0%nat)
      by no_such_call H0 ensureConnection_calls.
    assert (Z1 : count is_teardown (since w0 w1) = 0%nat)
      by no_such_call H1 (query_calls q).
    now rewrite Z0, Z1. }
  specialize (Eup eq_refl).
  repeat split; try congruence.
  intros Up Pl. specialize (Esame Up). inversion Esame; subst w0. auto.
Qed.


(** C1, as amended.  When the first attempt fails with a
    transient-connection error and the teardown that follows completes, the
    pool and the listener are closed once, one attempt is made to open the
    tunnel again, and the query is made at most twice in all.  When the
    tunnel does not come back, that failure is thrown and the query is not
    retried; when it does, the query is retried once: its rows are returned
    if it succeeds, its error is thrown if it fails. *)
Theorem runQuery_retries_once
  (env : Env) (q : JsString) (w w0 w1 w2 : World) (e1 : JsError) :
  run env ensureConnection w = (Returned tt, w0) ->
  run env (DatabaseClient.query q) w0 = (Thrown e1, w1) ->
  spec_transient e1 ->
  run env closeTunnel
      (effect (console_error [lit "Connection lost, reconnecting..."]) w1) =
    (Returned tt, w2) ->
  let final := run env (runQuery (DatabaseClient.query q)) w in
  vars w2 = mkState None None None /\
  count is_pool_end (since w (snd final)) = 1%nat /\
  count is_server_close (since w (snd final)) = 1%nat /\
  count is_readFileSync (since w2 (snd final)) = 1%nat /\
  (count is_execute (since w (snd final)) <= 2)%nat /\
  match run env ensureConnection w2 with
  | (Thrown e3, w3) =>
      final = (Thrown e3, w3) /\
      count is_execute (since w w3) = 1%nat
  | (Returned _, w3) =>
      match run env (DatabaseClient.query q) w3 with
      | (Returned rows, w4) =>
          fst final = Returned rows /\
          count is_execute (since w (snd final)) = 2%nat
      | (Thrown e4, w4) =>
          final = (Thrown e4, w4) /\
          count is_execute (since w w4) = 2%nat
      end
  end.
Proof.
  intros H0 H1 Htr H2.
  set (w1' := effect (console_error [lit "Connection lost, reconnecting..."]) w1) in *.
  assert (Hrun : run env (runQuery (DatabaseClient.query q)) w =
                 run env (attempt (DatabaseClient.query q)) w2).
  { unfold runQuery. rewrite run_bind, H0, run_try_catch, run_bind, H1.
    apply isTransient_spec in Htr. rewrite Htr.
    rewrite run_bind, run_log. fold w1'. rewrite run_bind, H2. reflexivity. }
  cbv zeta. rewrite Hrun. clear Hrun.
  frame_at (ensureConnection_frame env w) H0.
  destruct F as (Ep & Et & Epe & Eup & _). specialize (Eup eq_refl).
  frame_at (query_frame env q w0) H1.
  destruct F as (Qt & Qtm & Qp & _ & Qpe & Qx).
  destruct (log_frame [lit "Connection lost, reconnecting..."] w1)
    as (Lv & _ & Lx & Ls). fold w1' in Lv, Lx, Ls.
  frame_at (closeTunnel_frame env w1') H2.
  destruct F as ((Cv & Cpe & Csc) & _).
  assert (Up1 : tunnel_up w1') by (unfold tunnel_up in *; congruence).
  assert (Pl1 : pool (vars w1') <> None) by congruence.
  specialize (Cpe Pl1). specialize (Csc Up1).
  pose proof (run_extends_eq H0) as X0.
  pose proof (run_extends_eq H1) as X1.
  pose proof (run_extends_eq H2) as X2.
  assert (X : extends w w2)
    by (eauto using extends_trans).
  (* the calls up to the end of the teardown *)
  assert (Bx : count is_execute (since w w2) = 1%nat).
  { rewrite (count_since_trans _ w w0 w2), (count_since_trans _ w0 w1 w2),
      (count_since_trans _ w1 w1' w2); eauto using extends_trans.
    rewrite Qx, Ls.
    assert (Z0 : count is_execute (since w w0) = 0%nat)
      by no_such_call H0 ensureConnection_calls.
    assert (Z2 : count is_execute (since w1' w2) = 0%nat)
      by no_such_call H2 closeTunnel_calls.
    rewrite Z0, Z2. reflexivity. }
  assert (Bp : count is_pool_end (since w w2) = 1%nat).
  { rewrite (count_since_trans _ w w0 w2), (count_since_trans _ w0 w1 w2),
      (count_since_trans _ w1 w1' w2); eauto using extends_trans.
    rewrite Cpe, Ls.
    assert (Z0 : count is_pool_end (since w w0) = 0%nat)
      by no_such_call H0 ensureConnection_calls.
    assert (Z1 : count is_pool_end (since w0 w1) = 0%nat)
      by no_such_call H1 (query_calls q).
    rewrite Z0, Z1. reflexivity. }
  assert (Bs : count is_server_close (since w w2) = 1%nat).
  { rewrite (count_since_trans _ w w0 w2), (count_since_trans _ w0 w1 w2),
      (count_since_trans _ w1 w1' w2); eauto using extends_trans.
    rewrite Csc, Ls.
    assert (Z0 : count is_server_close (since w w0) = 0%nat)
      by no_such_call H0 ensureConnection_calls.
    assert (Z1 : count is_server_close (since w0 w1) = 0%nat)
      by no_such_call H1 (query_calls q).
    rewrite Z0, Z1. reflexivity. }
  split; [exact Cv|].
  (* the reopening and the retry *)
  destruct (attempt_frame env q w2) as [Ar Ax].
  assert (Hn : sshTunnel (vars w2) = None) by (rewrite Cv; reflexivity).
  specialize (Ar Hn).
  destruct (run env (attempt (DatabaseClient.query q)) w2) as [o wf] eqn:H3.
  pose proof (run_extends_eq H3) as X3. simpl snd in *.
  assert (Zp : count is_pool_end (since w2 wf) = 0%nat)
    by no_such_call H3 (attempt_calls q).
  assert (Zs : count is_server_close (since w2 wf) = 0%nat)
    by no_such_call H3 (attempt_calls q).
  rewrite !(count_since_trans _ w w2 wf) by assumption.
  rewrite Bp, Bs, Bx, Zp, Zs.
  repeat (split; [reflexivity || exact Ar || idtac|]).
  { destruct (run env ensureConnection w2) as [[[]|e3] w3]; rewrite Ax; lia. }
  rewrite attempt_run in H3.
  destruct (run env ensureConnection w2) as [[[]|e3] w3].
  - destruct (run env (DatabaseClient.query q) w3) as [[rows|e4] w4];
      inversion H3; subst; simpl fst;
      rewrite ?(count_since_trans _ w w2 _) by assumption;
      rewrite ?Bx, Ax; split; reflexivity.
  - inversion H3; subst. rewrite (count_since_trans _ w w2 wf) by assumption.
    rewrite Bx, Ax. split; reflexivity.
Qed.

(** X13.  Whatever the surroundings answer, [runQuery] executes the
    statement at most twice: there is one retry, never a loop. *)
Lemma runQuery_at_most_two_attempts (env : Env) (q : JsString) (w : World) :
  (count is_execute
     (since w (after env (runQuery (DatabaseClient.query q)) w)) <= 2)%nat.
Proof.
  unfold after, runQuery. rewrite run_bind.
  destruct (run env ensureConnection w) as [[[]|e0] w0] eqn:H0.
  2:{ simpl snd. assert (Z : count is_execute (since w w0) = 0%nat)
        by no_such_call H0 ensureConnection_calls. lia. }
  assert (Z0 : count is_execute (since w w0) = 0%nat)
    by no_such_call H0 ensureConnection_calls.
  pose proof (run_extends_eq H0) as X0.
  rewrite run_try_catch, run_bind.
  destruct (run env (DatabaseClient.query q) w0) as [[rows|e1] w1] eqn:H1;
    frame_at (query_frame env q w0) H1;
    destruct F as (_ & _ & _ & _ & _ & Qx);
    pose proof (run_extends_eq H1) as X1.
  - rewrite run_bind.
    destruct (resetIdleTimer_frame env w1) as [Hr _].
    destruct (run env resetIdleTimer w1) as [o w2] eqn:H2.
    simpl in Hr. subst o.
    pose proof (run_extends_eq H2) as X2.
    assert (Z2 : count is_execute (since w1 w2) = 0%nat)
      by (no_such_call H2 resetIdleTimer_calls).
    simpl run; simpl snd.
    rewrite (count_since_trans _ w w0 w2), (count_since_trans _ w0 w1 w2);
      eauto using extends_trans; lia.
  - destruct (isTransient e1).
    2:{ simpl snd. rewrite (count_since_trans _ w w0 w1) by assumption. lia. }
    rewrite run_bind, run_log.
    destruct (log_frame [lit "Connection lost, reconnecting..."] w1)
      as (_ & _ & Lx & Ls).
    set (w1' := effect (console_error [lit "Connection lost, reconnecting..."]) w1) in *.
    rewrite run_bind.
    destruct (run env closeTunnel w1') as [[[]|e2] w2] eqn:H2;
      pose proof (run_extends_eq H2) as X2;
      assert (Z2 : count is_execute (since w1' w2) = 0%nat)
        by (no_such_call H2 closeTunnel_calls).
    + destruct (attempt_frame env q w2) as [_ Ax].
      fold (attempt (DatabaseClient.query q)).
      pose proof (run_extends env (attempt (DatabaseClient.query q)) w2) as X3.
      set (wf := snd (run env (attempt (DatabaseClient.query q)) w2)) in *.
      rewrite (count_since_trans _ w w0 wf), (count_since_trans _ w0 w1 wf),
        (count_since_trans _ w1 w1' wf), (count_since_trans _ w1' w2 wf);
        eauto using extends_trans.
      rewrite Z0, Qx, Ls, Z2.
      destruct (run env ensureConnection w2) as [[[]|e3] w3]; rewrite Ax;
        unfold count; simpl; lia.
    + simpl snd.
      rewrite (count_since_trans _ w w0 w2), (count_since_trans _ w0 w1 w2),
        (count_since_trans _ w1 w1' w2); eauto using extends_trans.
      rewrite Z0, Qx, Ls, Z2. unfold count. simpl. lia.
Qed.

Lemma runQuery_retries_once_witness :
  (count is_execute
     (since initial
        (snd (run (failing_queries econnreset)
                  (runQuery (DatabaseClient.query (lit "SELECT 1")))
                  initial))) <= 2)%nat.
Proof.
  refine (proj1 (proj2 (proj2 (proj2 (proj2
    (runQuery_retries_once (failing_queries econnreset) (lit "SELECT 1")
       initial _ _ _ _ _ _ _ _)))))).
  - reflexivity.
  - reflexivity.
  - right. left. reflexivity.
  - reflexivity.
Defined.

Lemma runQuery_surfaces_non_transient_witness :
  fst (run (failing_queries no_such_table)
           (runQuery (DatabaseClient.query (lit "SELECT 1"))) initial) =
  Thrown no_such_table.
Proof.
  refine (f_equal fst (proj1
    (runQuery_surfaces_non_transient (failing_queries no_such_table)
       (lit "SELECT 1") initial _ _ _ _ _ _))).
  - reflexivity.
  - reflexivity.
  - intros [H | [H | [H | [m [b [r [Hm H]]]]]]]; try discriminate H.
    injection Hm as <-.
    assert (E : includes (lit "Table 'database.missing' doesn't exist")
                         (lit "Connection lost") = true)
      by (apply includes_infix; eauto).
    vm_compute in E. discriminate E.
Defined.

(** C1, as stated, fails: the first attempt fails with a connection reset,
    the tunnel is torn down and does not open again; the caller gets the
    error of the tunnel, and the query was made once, not twice. *)
Lemma runQuery_gives_up_when_tunnel_stays_down :
  let q := DatabaseClient.query (lit "SELECT 1") in
  let final := run tunnel_once (runQuery q) initial in
  spec_transient econnreset /\
  (exists w0 w1,
      run tunnel_once ensureConnection initial = (Returned tt, w0) /\
      run tunnel_once q w0 = (Thrown econnreset, w1)) /\
  fst final =
    Thrown (newError
              (lit "Could not establish SSH tunnel to database server")) /\
  count is_execute (trace (snd final)) = 1%nat /\
  count is_pool_end (trace (snd final)) = 1%nat.
Proof.
  cbv zeta. split; [right; left; reflexivity|]. split.
  - eexists _, _. split; reflexivity.
  - repeat split; vm_compute; reflexivity.
Qed.

(** ** Identifier sanitization *)

(** A call that is counted is in the trace. *)
Lemma count_positive (f : Action -> bool) (l : list Action) :
  (1 <= count f l)%nat -> exists a, In a l /\ f a = true.
Proof.
  unfold count. intros H.
  destruct (filter f l) as [|a l'] eqn:E; [simpl in H; lia|].
  exists a. apply filter_In. rewrite E. left. reflexivity.
Qed.

(** What [runQuery] does once the connection is there, by the outcome of the
    first attempt of the query. *)
Lemma runQuery_first_attempt (env : Env) (q : JsString) (w w0 : World) :
  run env ensureConnection w = (Returned tt, w0) ->
  let final := run env (runQuery (DatabaseClient.query q)) w in
  (1 <= count is_execute (since w (snd final)))%nat /\
  match run env (DatabaseClient.query q) w0 with
  | (Returned rows, w1) =>
      final = (Returned rows, after env resetIdleTimer w1)
  | (Thrown e, w1) =>
      if isTransient e then True else final = (Thrown e, w1)
  end.
Proof.
  intros H0. cbv zeta.
  pose proof (run_extends_eq H0) as X0.
  destruct (run env (DatabaseClient.query q) w0) as [[rows|e] w1] eqn:H1;
    pose proof (run_extends_eq H1) as X1;
    frame_at (query_frame env q w0) H1;
    destruct F as (_ & _ & _ & _ & _ & Qx).
  - assert (E : run env (runQuery (DatabaseClient.query q)) w =
                (Returned rows, after env resetIdleTimer w1)).
    { unfold runQuery, after.
      rewrite run_bind, H0, run_try_catch, run_bind, H1, run_bind.
      destruct (resetIdleTimer_frame env w1) as [Hr _].
      destruct (run env resetIdleTimer w1) as [o w2]. simpl in Hr. subst o.
      reflexivity. }
    rewrite E. split; [|reflexivity]. simpl snd.
    pose proof (run_extends env resetIdleTimer w1) as X2.
    fold (after env resetIdleTimer w1) in X2.
    rewrite (count_since_trans _ w w0 _), (count_since_trans _ w0 w1 _);
      eauto using extends_trans.
    rewrite Qx. lia.
  - assert (X : extends w1 (snd (run env (runQuery (DatabaseClient.query q)) w))).
    { unfold runQuery.
      rewrite run_bind, H0, run_try_catch, run_bind, H1.
      apply run_extends. }
    split.
    + rewrite (count_since_trans _ w w0 _), (count_since_trans _ w0 w1 _);
        eauto using extends_trans.
      rewrite Qx. lia.
    + destruct (isTransient e) eqn:Et; [exact I|].
      apply (runQuery_rethrows env _ w w0 w1 e H0 H1 Et).
Qed.

(** The handler of [describe_table] answers with what [runQuery] gives. *)
Lemma describe_table_answer (env : Env) (w : World) (t : JsString)
  (other : option JsString) :
  run env
      (handleCallTool env
         (mkParams (lit "describe_table") (Some (mkArgs other (Some t))))) w =
  match run env
          (runQuery
             (DatabaseClient.query (lit "DESCRIBE " ++ sanitizeTableName t)))
          w with
  | (Returned rows, w') =>
      (Returned (text_result (JSON_stringify (J_rows rows))), w')
  | (Thrown e, w') =>
      (Returned (text_result (Plain (lit "Error: " ++ messageText e))), w')
  end.
Proof.
  unfold handleCallTool. rewrite run_try_catch, dispatch_describe_table.
  cbn [property receiver table bind]. rewrite run_bind.
  destruct (run env (runQuery _) w) as [[rows|e] w']; reflexivity.
Qed.

(** C7. [sanitizeTableName] keeps, in order, exactly the code units of
    [A-Za-z0-9_] and drops every other one; sanitizing twice is sanitizing
    once; and [describe_table] embeds the sanitized name: every statement
    it has the pool execute is [DESCRIBE] followed by the sanitized name,
    that statement is executed whenever the connection is there, and its
    rows (or, when it fails with an error that is not a connection error,
    its error) are what the caller is answered; when the connection is not
    there nothing is executed. *)
Theorem sanitizeTableName_strips_and_is_idempotent
  (env : Env) (w : World) (t : JsString) (other : option JsString) :
  let statement := lit "DESCRIBE " ++ sanitizeTableName t in
  let answer :=
    run env
        (handleCallTool env
           (mkParams (lit "describe_table") (Some (mkArgs other (Some t)))))
        w in
  sanitizeTableName t = filter isWordUnit t /\
  sanitizeTableName (sanitizeTableName t) = sanitizeTableName t /\
  Forall (executes_only statement) (since w (snd answer)) /\
  match run env ensureConnection w with
  | (Thrown e, w0) =>
      answer =
        (Returned (text_result (Plain (lit "Error: " ++ messageText e))), w0) /\
      count is_execute (since w (snd answer)) = 0%nat
  | (Returned _, w0) =>
      (exists p, In (A_execute p statement) (since w (snd answer))) /\
      match run env (DatabaseClient.query statement) w0 with
      | (Returned rows, _) =>
          fst answer = Returned (text_result (JSON_stringify (J_rows rows)))
      | (Thrown e, w1) =>
          if isTransient e then True
          else answer =
                 (Returned
                    (text_result (Plain (lit "Error: " ++ messageText e))),
                  w1)
      end
  end.
Proof.
  cbv zeta.
  assert (HF : Forall (executes_only (lit "DESCRIBE " ++ sanitizeTableName t))
                 (since w
                    (snd (run env
                            (handleCallTool env
                               (mkParams (lit "describe_table")
                                  (Some (mkArgs other (Some t))))) w)))).
  { apply (all_calls_run _ env _ w). unfold handleCallTool.
    apply all_calls_try_catch; [|intros; exact I].
    rewrite dispatch_describe_table. cbn [property receiver table bind].
    apply all_calls_bind; [apply runQuery_executes_only | intros; exact I]. }
  split; [apply sanitizeTableName_filter|]. split.
  { rewrite !sanitizeTableName_filter. apply filter_twice. }
  split; [exact HF|].
  rewrite describe_table_answer in *.
  set (statement := lit "DESCRIBE " ++ sanitizeTableName t) in *.
  destruct (run env ensureConnection w) as [[[]|e0] w0] eqn:H0.
  - destruct (runQuery_first_attempt env statement w w0 H0) as [Hc Ho].
    destruct (run env (runQuery (DatabaseClient.query statement)) w)
      as [[rows'|e'] wf] eqn:Hf; simpl snd in *; simpl fst.
    + split.
      * destruct (count_positive _ _ Hc) as [a [Ha Hx]].
        destruct a as [ | |?| |p0 q0|?|?|?|?|?|?|?]; try discriminate Hx.
        exists p0. rewrite Forall_forall in HF.
        rewrite <- (HF _ Ha p0 q0 eq_refl). exact Ha.
      * destruct (run env (DatabaseClient.query statement) w0)
          as [[rows|e] w1].
        -- injection Ho as <- _. reflexivity.
        -- destruct (isTransient e); [exact I | discriminate Ho].
    + split.
      * destruct (count_positive _ _ Hc) as [a [Ha Hx]].
        destruct a as [ | |?| |p0 q0|?|?|?|?|?|?|?]; try discriminate Hx.
        exists p0. rewrite Forall_forall in HF.
        rewrite <- (HF _ Ha p0 q0 eq_refl). exact Ha.
      * destruct (run env (DatabaseClient.query statement) w0)
          as [[rows|e] w1].
        -- discriminate Ho.
        -- destruct (isTransient e); [exact I|].
           injection Ho as <- <-. reflexivity.
  - assert (Hf : run env (runQuery (DatabaseClient.query statement)) w =
                 (Thrown e0, w0)).
    { unfold runQuery. rewrite run_bind, H0. reflexivity. }
    rewrite Hf in *. simpl snd. split; [reflexivity|].
    no_such_call H0 ensureConnection_calls.
Qed.

Example describe_table_statement :
  filter is_execute
    (trace
       (after healthy
          (handleCallTool healthy
             (mkParams (lit "describe_table")
                (Some (mkArgs None (Some (lit "users; DROP TABLE x--"))))))
          initial)) =
  [A_execute 4%nat (lit "DESCRIBE usersDROPTABLEx")].
Proof. vm_compute. reflexivity. Qed.

(** ** Teardown *)

(** C4, at the failing input.  The pool exists and [pool.end()] rejects:
    [closeTunnel] rejects with that error, and the tunnel handle is still
    set. The listener and the SSH connection were not closed. *)
Theorem closeTunnel_propagates_pool_end_error :
  let w := after pool_end_rejects
                 (handleCallTool pool_end_rejects (tool "list_tables"))
                 initial in
  let r := run pool_end_rejects closeTunnel w in
  vars w = mkState (Some (mkTunnel 1 1)) (Some 6%nat) (Some 4%nat) /\
  fst r = Thrown econnreset /\
  vars (snd r) = mkState (Some (mkTunnel 1 1)) None (Some 4%nat) /\
  since w (snd r) = [A_clearTimeout 6%nat; A_pool_end 4%nat].
Proof. cbv zeta. repeat split; vm_compute; reflexivity. Qed.

(** X7.  What [closeTunnel] does do: it throws only what [pool.end()]
    threw; an error of [server.close()] or of [conn.end()] is dropped; and
    whenever it returns, handle, timer and pool are cleared. *)
Lemma closeTunnel_suppresses_tunnel_errors (env : Env) (w : World) :
  let r := run env closeTunnel w in
  match fst r with
  | Returned _ => vars (snd r) = mkState None None None
  | Thrown e =>
      exists p,
        pool (vars w) = Some p /\
        (pool_end_result env (List.length (trace w)) = inl e \/
         pool_end_result env (S (List.length (trace w))) = inl e)
  end.
Proof.
  destruct w as [[tn tm pl] tr pe li nw ex]. cbn.
  case_split; cbn; try reflexivity; eexists; split; try reflexivity.
  all: rewrite ?length_app, ?Nat.add_1_r in *; auto.
Qed.

(** ** The idle timer *)

(** C5, at the failing input.  The first operation of the process opens
    the tunnel and its statement fails with an error that is not a
    connection error.  No timer is armed, so the idle period passes and no
    timer can come due, then or after any further wait: handle and pool are
    still set and no call of the teardown was made. *)
Theorem tunnel_outlives_idle_period_after_failed_query :
  let env := failing_queries no_such_table in
  exists w,
    steps env initial
      [ToolCall (read_query "SELECT * FROM missing"); Elapse IDLE_TIMEOUT_MS]
    = Some w /\
    vars w = mkState (Some (mkTunnel 1 1)) None (Some 4%nat) /\
    pending w = [] /\
    now w = IDLE_TIMEOUT_MS /\
    count is_teardown (trace w) = 0%nat /\
    (forall t, step env w (TimerDue t) = None) /\
    (forall d, exists w',
        step env w (Elapse d) = Some w' /\ vars w' = vars w).
Proof.
  cbv zeta. eexists. split; [vm_compute; reflexivity|].
  repeat split. intros d. eexists. split; reflexivity.
Qed.

(** X17.  With the timer armed, handle and pool in place, and a
    [pool.end()] that resolves: the idle period can pass, the timer comes
    due, the teardown runs once and leaves nothing behind, and no timer is
    left to fire. *)
Lemma idle_timer_tears_down_once
  (env : Env) (w : World) (t : TimerId) (due : N) (tn : Tunnel) (p : PoolId) :
  exited w = false ->
  vars w = mkState (Some tn) (Some t) (Some p) ->
  pending w = [(t, due)] ->
  now w <= due ->
  pool_end_result env (S (List.length (trace w))) = inr tt ->
  exists w1 w2,
    step env w (Elapse (due - now w)) = Some w1 /\
    step env w1 (TimerDue t) = Some w2 /\
    vars w2 = mkState None None None /\
    pending w2 = [] /\
    count is_pool_end (since w w2) = 1%nat /\
    count is_server_close (since w w2) = 1%nat /\
    forall t', step env w2 (TimerDue t') = None.
Proof.
  intros Hex Hv Hp Hnow Hend.
  destruct w as [vs tr pe li nw ex]. simpl in *. subst vs pe ex.
  assert (E1 : (nw + (due - nw) <=? due) = true) by (apply N.leb_le; lia).
  assert (E2 : (due <=? nw + (due - nw)) = true) by (apply N.leb_le; lia).
  eexists _, _. split.
  { unfold step, may_elapse. simpl. rewrite E1. simpl. reflexivity. }
  split.
  { unfold step, due_time. simpl. rewrite Nat.eqb_refl. simpl. rewrite E2.
    reflexivity. }
  unfold after, disarm. simpl. rewrite Nat.eqb_refl. simpl.
  rewrite length_app, Nat.add_1_r. simpl. rewrite Hend. simpl.
  destruct (server_close_result env _); simpl;
    [|destruct (conn_end_result env _); simpl];
    since_now; repeat split.
Qed.

(** After an operation that succeeded the timer is armed; when it comes due
    the pool and the tunnel are closed once, and the next operation opens
    the tunnel anew. *)
Example idle_period_after_successful_query :
  exists w1 w2 w3,
    steps healthy initial [ToolCall (tool "list_tables")] = Some w1 /\
    pending w1 = [(6%nat, IDLE_TIMEOUT_MS)] /\
    steps healthy w1 [Elapse IDLE_TIMEOUT_MS; TimerDue 6%nat] = Some w2 /\
    vars w2 = mkState None None None /\
    pending w2 = [] /\
    filter is_teardown (since w1 w2) =
      [A_pool_end 4%nat; A_server_close 1%nat; A_conn_end 1%nat] /\
    steps healthy w2 [ToolCall (tool "list_tables")] = Some w3 /\
    count is_createTunnel (since w2 w3) = 1%nat /\
    step healthy w1 (Elapse (IDLE_TIMEOUT_MS + 1)) = None.
Proof.
  eexists _, _, _. split; [vm_compute; reflexivity|].
  split; [reflexivity|]. split; [vm_compute; reflexivity|].
  split; [reflexivity|]. split; [reflexivity|].
  split; [vm_compute; reflexivity|].
  split; [vm_compute; reflexivity|].
  split; vm_compute; reflexivity.
Qed.

(** ** Session and tunnel *)
















(** The listeners are never removed and do not look at the connection they
    were put on.  Here the first statement fails with a connection reset
    and [runQuery] recovers: connection 1 is ended by [closeTunnel] and
    tunnel 12 is opened.  The [close] of connection 1, arriving after the
    call, clears the handle of tunnel 12. *)
Example close_of_an_ended_connection_reaches_the_next_handle :
  exists w1 w2,
    steps reset_once initial [ToolCall (tool "list_tables")] = Some w1 /\
    In (A_conn_end 1%nat) (trace w1) /\
    vars w1 = mkState (Some (mkTunnel 12 12)) (Some 17%nat) (Some 15%nat) /\
    finds_handle w1 (ConnClose 1%nat) = true /\
    step reset_once w1 (ConnClose 1%nat) = Some w2 /\
    vars w2 = mkState None (Some 17%nat) (Some 15%nat).
Proof.
  eexists _, _. split; [vm_compute; reflexivity|].
  split; [simpl; tauto|]. split; [reflexivity|]. split; [reflexivity|].
  split; [vm_compute; reflexivity|]. reflexivity.
Qed.

(** ** Concurrent callers *)

Lemma advance_ensureConnection (env : Env) (w : World) (k : Buffer) :
  sshTunnel (vars w) = None ->
  fs_result env (List.length (trace w)) = inr k ->
  exists rest,
    advance env ensureConnection w =
    (Suspended rest,
     mkWorld (vars w) (trace w ++ [A_readFileSync; A_createTunnel])
             (pending w) (listeners w) (now w) (exited w)).
Proof.
  intros Hn Hk. unfold ensureConnection, openTunnel. simpl.
  rewrite Hn. simpl. rewrite Hn. simpl. rewrite Hk. simpl.
  eexists. f_equal. unfold record. simpl. now rewrite <- app_assoc.
Qed.

(** C8, as amended.  Nothing serializes the attempts to open the tunnel: a
    caller skips the attempt only if the handle is set when it looks.  Two
    callers that both start while no handle exists, the second before the
    attempt of the first has settled, each call [createTunnel]; a caller
    that starts after the attempt of another has succeeded makes none. *)
Theorem open_attempts_are_not_serialized
  (env : Env) (w : World) (k1 k2 : Buffer) :
  sshTunnel (vars w) = None ->
  fs_result env (List.length (trace w)) = inr k1 ->
  fs_result env (List.length (trace w) + 2) = inr k2 ->
  count is_createTunnel
    (since w (snd (interleave env [0; 1]%nat
                     [Suspended ensureConnection; Suspended ensureConnection]
                     w))) = 2%nat /\
  (forall w1,
      run env ensureConnection w = (Returned tt, w1) ->
      run env ensureConnection w1 = (Returned tt, w1) /\
      count is_createTunnel
        (since w (snd (run env (ensureConnection ;; ensureConnection) w))) =
      1%nat).
Proof.
  intros Hn Hk1 Hk2. split.
  - destruct (advance_ensureConnection env w k1 Hn Hk1) as [rest1 E1].
    set (w1 := mkWorld (vars w) (trace w ++ [A_readFileSync; A_createTunnel])
                       (pending w) (listeners w) (now w) (exited w)) in *.
    assert (Hk2' : fs_result env (List.length (trace w1)) = inr k2).
    { unfold w1. simpl. rewrite length_app. simpl. exact Hk2. }
    destruct (advance_ensureConnection env w1 k2 Hn Hk2') as [rest2 E2].
    unfold interleave, resume_nth, resume. rewrite E1, E2. simpl snd.
    erewrite since_extends
      by (unfold w1; simpl; rewrite <- app_assoc; reflexivity).
    reflexivity.
  - intros w1 H1.
    destruct (ensureConnection_frame env w)
      as (_ & _ & _ & Eup & _ & _ & _ & Ec & _).
    rewrite H1 in Eup, Ec. simpl in Eup, Ec. specialize (Eup eq_refl).
    destruct (ensureConnection_frame env w1) as (_ & _ & _ & _ & Esame & _).
    specialize (Esame Eup). split; [exact Esame|].
    rewrite run_bind, H1, Esame. simpl snd. auto.
Qed.

Lemma open_attempts_are_not_serialized_witness :
  count is_createTunnel
    (since initial
       (snd (interleave healthy [0; 1]%nat
               [Suspended ensureConnection; Suspended ensureConnection]
               initial))) = 2%nat.
Proof.
  refine (proj1 (open_attempts_are_not_serialized healthy initial
                   _ _ _ _ _)).
  - reflexivity.
  - reflexivity.
  - reflexivity.
Defined.

(** C8, as stated, fails: two [connect_db] calls are issued while no
    tunnel exists, the second before the tunnel of the first is up; both
    are answered, and [createTunnel] was called twice. *)
Lemma concurrent_calls_open_two_tunnels :
  let call := Suspended (handleCallTool healthy (tool "connect_db")) in
  let r := interleave healthy [0; 1; 0; 1; 0; 1]%nat [call; call] initial in
  sshTunnel (vars initial) = None /\
  (exists a b, fst r = [Finished (Returned a); Finished (Returned b)]) /\
  count is_createTunnel (trace (snd r)) = 2%nat /\
  filter is_createTunnel
    (trace (snd (interleave healthy [0; 1]%nat [call; call] initial))) =
    [A_createTunnel; A_createTunnel].
Proof.
  cbv zeta. split; [reflexivity|]. split.
  - eexists _, _. vm_compute. reflexivity.
  - split; vm_compute; reflexivity.
Qed.

(* ===================================================================== *)
(** * Further properties of the code *)
(* ===================================================================== *)

(** ** [isReadOnlyQuery]: what the prefix test lets through *)

Lemma trimStart_whitespace (lead s : JsString) :
  forallb isWhiteSpace lead = true -> trimStart (lead ++ s) = trimStart s.
Proof.
  induction lead as [|c lead IH]; simpl; [reflexivity|].
  intros H. apply andb_true_iff in H. destruct H as [Hc Hl].
  rewrite Hc. auto.
Qed.

Lemma trimStart_all_whitespace (s : JsString) :
  forallb isWhiteSpace s = true -> trimStart s = [].
Proof.
  intros H. rewrite <- (app_nil_r s). rewrite trimStart_whitespace; auto.
Qed.

(** [trimStart] gives a suffix of its argument. *)
Lemma trimStart_suffix (s : JsString) :
  exists lead, s = lead ++ trimStart s.
Proof.
  induction s as [|c s [lead IH]]; simpl.
  - exists []. reflexivity.
  - destruct (isWhiteSpace c).
    + exists (c :: lead). simpl. now rewrite <- IH.
    + exists []. reflexivity.
Qed.

(** A string that begins with a code unit that is not white space is kept
    by [trimStart]. *)
Lemma trimStart_keeps (c : N) (s : JsString) :
  isWhiteSpace c = false -> trimStart (c :: s) = c :: s.
Proof. intros H. simpl. now rewrite H. Qed.

(** [trimEnd] keeps everything up to the last code unit that is not white
    space. *)
Lemma trimEnd_keeps_prefix (a : JsString) (c : N) (b : JsString) :
  isWhiteSpace c = false ->
  exists y, trimEnd ((a ++ [c]) ++ b) = (a ++ [c]) ++ y.
Proof.
  intros Hc. unfold trimEnd. rewrite rev_app_distr.
  destruct (trimStart_suffix (rev b ++ rev (a ++ [c]))) as [lead E].
  (* the trimmed string ends with rev (a ++ [c]) *)
  assert (H : exists x, trimStart (rev b ++ rev (a ++ [c])) = x ++ rev (a ++ [c])).
  { clear lead E. induction (rev b) as [|d l IH]; simpl.
    - rewrite rev_app_distr. simpl. rewrite Hc. exists []. reflexivity.
    - destruct (isWhiteSpace d).
      + exact IH.
      + exists (d :: l). reflexivity. }
  destruct H as [x Hx]. rewrite Hx, rev_app_distr, rev_involutive.
  exists (rev x). reflexivity.
Qed.

Lemma lowerUnit_whitespace (c : N) :
  isWhiteSpace c = true -> lowerUnit c = [c].
Proof.
  unfold isWhiteSpace, lowerUnit. intros H.
  destruct ((65 <=? c) && (c <=? 90)) eqn:E1.
  { apply andb_true_iff in E1. destruct E1 as [A B].
    apply N.leb_le in A, B.
    repeat (apply orb_true_iff in H; destruct H as [H|H]);
      repeat match goal with
      | H : (_ && _) = true |- _ => apply andb_true_iff in H; destruct H
      | H : (_ <=? _) = true |- _ => apply N.leb_le in H
      | H : (_ =? _) = true |- _ => apply N.eqb_eq in H
      end; lia. }
  destruct (c =? 304) eqn:E2.
  { apply N.eqb_eq in E2. subst c. discriminate H. }
  destruct (c =? 8490) eqn:E3.
  { apply N.eqb_eq in E3. subst c. discriminate H. }
  reflexivity.
Qed.

Lemma toLowerCase_app (a b : JsString) :
  toLowerCase (a ++ b) = toLowerCase a ++ toLowerCase b.
Proof. unfold toLowerCase. apply flat_map_app. Qed.

(** A word whose lower case is one of the verbs has no white space in it,
    and is not empty. *)
Lemma verb_has_no_whitespace (v : JsString) :
  In (toLowerCase v) spec_verbs ->
  forallb (fun c => negb (isWhiteSpace c)) v = true /\ v <> [].
Proof.
  intros Hin. split.
  - apply forallb_forall. intros c Hc.
    destruct (isWhiteSpace c) eqn:E; [|reflexivity]. exfalso.
    assert (Hl : In c (toLowerCase v)).
    { unfold toLowerCase. apply in_flat_map. exists c. split; [exact Hc|].
      rewrite (lowerUnit_whitespace c E). left. reflexivity. }
    assert (Hv : forallb (fun l => forallb (fun c => negb (isWhiteSpace c)) l)
                   spec_verbs = true) by reflexivity.
    rewrite forallb_forall in Hv. specialize (Hv _ Hin).
    rewrite forallb_forall in Hv. specialize (Hv _ Hl).
    rewrite E in Hv. discriminate.
  - intros ->. simpl in Hin.
    destruct Hin as [H | [H | [H | []]]]; discriminate.
Qed.

(** X1.  [isReadOnlyQuery] looks at the beginning of the statement only:
    after any leading white space, a statement that begins with one of the
    three verbs in any letter case is accepted whatever follows the verb,
    a second statement after a semicolon included. *)
Theorem isReadOnlyQuery_checks_the_prefix_only
  (lead v rest : JsString) :
  forallb isWhiteSpace lead = true ->
  In (toLowerCase v) spec_verbs ->
  isReadOnlyQuery (lead ++ v ++ rest) = true.
Proof.
  intros Hlead Hv.
  destruct (verb_has_no_whitespace v Hv) as [Hws Hne].
  apply isReadOnlyQuery_prefix.
  unfold trim. rewrite trimStart_whitespace by exact Hlead.
  destruct v as [|c0 v0]; [contradiction|].
  assert (H0 : isWhiteSpace c0 = false).
  { simpl in Hws. apply andb_true_iff in Hws. destruct Hws as [H _].
    now apply negb_true_iff in H. }
  change ((c0 :: v0) ++ rest) with (c0 :: (v0 ++ rest)).
  rewrite trimStart_keeps by exact H0.
  change (c0 :: (v0 ++ rest)) with ((c0 :: v0) ++ rest).
  destruct (exists_last Hne) as [a [c Eac]].
  assert (Hc : isWhiteSpace c = false).
  { rewrite Eac in Hws. rewrite forallb_app in Hws.
    apply andb_true_iff in Hws. destruct Hws as [_ H]. simpl in H.
    rewrite andb_true_r in H. now apply negb_true_iff in H. }
  rewrite Eac. destruct (trimEnd_keeps_prefix a c rest Hc) as [y Ey].
  rewrite Ey, toLowerCase_app, <- Eac.
  exists (toLowerCase (c0 :: v0)), (toLowerCase y). split; [exact Hv|reflexivity].
Qed.

Lemma isReadOnlyQuery_checks_the_prefix_only_witness :
  isReadOnlyQuery (lit "  Select 1; DROP TABLE x") = true.
Proof.
  apply (isReadOnlyQuery_checks_the_prefix_only
           (lit "  ") (lit "Select") (lit " 1; DROP TABLE x")).
  - reflexivity.
  - simpl. left. reflexivity.
Defined.

(** A statement of white space only begins with none of the verbs. *)
Lemma isReadOnlyQuery_rejects_blank (s : JsString) :
  forallb isWhiteSpace s = true -> isReadOnlyQuery s = false.
Proof.
  intros H. unfold isReadOnlyQuery, trim.
  rewrite (trimStart_all_whitespace s H). reflexivity.
Qed.

(** ** [sanitizeTableName]: what is kept *)

Lemma filter_fixed {X : Type} (f : X -> bool) (l : list X) :
  filter f l = l <-> forallb f l = true.
Proof.
  induction l as [|x l IH]; simpl; [tauto|].
  destruct (f x) eqn:E; simpl.
  - rewrite <- IH. split; [intros H; congruence | intros H; congruence].
  - split; [|discriminate]. intros H.
    assert (L : List.length (filter f l) = S (List.length l)) by now rewrite H.
    pose proof (filter_length_le f l). lia.
Qed.

(** X3.  The sanitized name consists of word characters only and is never
    longer than the name given; a name is returned unchanged exactly when
    it consists of word characters only, and the result is the empty
    string exactly when the name has no word character at all (the
    statement is then a bare DESCRIBE). *)
Theorem sanitizeTableName_fixed_points (t : JsString) :
  forallb isWordUnit (sanitizeTableName t) = true /\
  (List.length (sanitizeTableName t) <= List.length t)%nat /\
  (sanitizeTableName t = t <-> forallb isWordUnit t = true) /\
  (sanitizeTableName t = [] <-> forallb (fun c => negb (isWordUnit c)) t = true).
Proof.
  rewrite sanitizeTableName_filter. repeat split.
  - apply forallb_forall. intros c Hc. apply filter_In in Hc. tauto.
  - apply filter_length_le.
  - apply filter_fixed.
  - apply filter_fixed.
  - induction t as [|c t IH]; simpl; [reflexivity|].
    destruct (isWordUnit c); simpl; [discriminate | exact IH].
  - induction t as [|c t IH]; simpl; [reflexivity|].
    destruct (isWordUnit c); simpl; [discriminate | exact IH].
Qed.

(** ** [openTunnel] and [ensureConnection] *)

(** X4.  [openTunnel] never touches the pool or the idle timer.  With a
    handle present it returns true and does nothing.  Without one it has
    three ways to end: true, and the handle is the tunnel that
    [createTunnel] resolved with, whose connection has its listeners
    attached; false, when [createTunnel] rejected, and then no handle and
    no listener is left; or the error of [readFileSync] thrown, the key
    being read outside the [try], and then [createTunnel] was not called
    at all. *)
Theorem openTunnel_leaves_no_partial_handle (env : Env) (w : World) :
  let r := run env openTunnel w in
  pool (vars (snd r)) = pool (vars w) /\
  idleTimer (vars (snd r)) = idleTimer (vars w) /\
  pending (snd r) = pending w /\
  match sshTunnel (vars w) with
  | Some _ => r = (Returned true, w)
  | None =>
      match fst r with
      | Returned true =>
          exists t,
            tunnel_result env (S (List.length (trace w))) = inr t /\
            sshTunnel (vars (snd r)) = Some t /\
            subscribed (conn t) (snd r) = true /\
            count is_createTunnel (since w (snd r)) = 1%nat
      | Returned false =>
          (exists e, tunnel_result env (S (List.length (trace w))) = inl e) /\
          sshTunnel (vars (snd r)) = None /\
          listeners (snd r) = listeners w /\
          count is_createTunnel (since w (snd r)) = 1%nat
      | Thrown e =>
          fs_result env (List.length (trace w)) = inl e /\
          sshTunnel (vars (snd r)) = None /\
          listeners (snd r) = listeners w /\
          count is_createTunnel (since w (snd r)) = 0%nat
      end
  end.
Proof.
  destruct w as [[tn tm pl] tr pe li nw ex]. unfold subscribed. cbn.
  case_split; since_now; cbn; rewrite ?length_app, ?Nat.add_1_r in *;
    repeat split; eauto.
  eexists. repeat split; eauto. now rewrite Nat.eqb_refl.
Qed.

(** X5.  [ensureConnection] throws in two cases only, both without a
    handle before and after and without any statement executed: the error
    of [readFileSync] as it is, before [createTunnel] is called, or the
    fixed message, after the one call of [createTunnel] was rejected. *)
Theorem ensureConnection_failure_modes
  (env : Env) (w w' : World) (e : JsError) :
  run env ensureConnection w = (Thrown e, w') ->
  sshTunnel (vars w) = None /\
  sshTunnel (vars w') = None /\
  count is_execute (since w w') = 0%nat /\
  (fs_result env (List.length (trace w)) = inl e /\
   count is_createTunnel (since w w') = 0%nat
   \/
   e = newError (lit "Could not establish SSH tunnel to database server") /\
   (exists e', tunnel_result env (S (List.length (trace w))) = inl e') /\
   count is_createTunnel (since w w') = 1%nat).
Proof.
  destruct w as [[tn tm pl] tr pe li nw ex]. cbn.
  case_split; intros [= <- <-]; since_now; cbn;
    rewrite ?length_app, ?Nat.add_1_r in *; repeat split; eauto 10.
Qed.

Lemma ensureConnection_failure_modes_witness :
  sshTunnel (vars (snd (run key_missing ensureConnection initial))) = None /\
  count is_execute
    (since initial (snd (run key_missing ensureConnection initial))) = 0%nat.
Proof.
  destruct (ensureConnection_failure_modes key_missing initial
              (snd (run key_missing ensureConnection initial)) enoent)
    as (_ & Hn & Hx & _).
  - vm_compute. reflexivity.
  - split; [exact Hn | exact Hx].
Defined.

(** ** [closeTunnel], once more *)

(** With nothing to close, [closeTunnel] does nothing. *)
Lemma closeTunnel_idle (env : Env) (w : World) :
  vars w = mkState None None None ->
  run env closeTunnel w = (Returned tt, w).
Proof.
  destruct w as [vs tr pe li nw ex]. simpl. intros ->. reflexivity.
Qed.

(** X6.  After a teardown that returned, a second teardown returns as
    well and does nothing: no call, no change of the variables. *)
Theorem closeTunnel_is_idempotent (env : Env) (w w1 : World) :
  run env closeTunnel w = (Returned tt, w1) ->
  run env closeTunnel w1 = (Returned tt, w1).
Proof.
  intros H. frame_at (closeTunnel_frame env w) H.
  destruct F as ((Cv & _) & _). apply closeTunnel_idle, Cv.
Qed.

Lemma closeTunnel_is_idempotent_witness :
  let w := after healthy (handleCallTool healthy (tool "list_tables")) initial in
  run healthy closeTunnel (after healthy closeTunnel w) =
  (Returned tt, after healthy closeTunnel w).
Proof.
  cbv zeta.
  apply (closeTunnel_is_idempotent healthy
           (after healthy (handleCallTool healthy (tool "list_tables")) initial)).
  vm_compute. reflexivity.
Defined.

(** ** [DatabaseClient]: the pool *)

(** X8.  The pool is lazy and shared: the first query creates it if there
    is none, and the next query executes on the same pool without
    creating another. *)
Theorem query_creates_the_pool_once (env : Env) (q1 q2 : JsString) (w : World) :
  let w1 := after env (DatabaseClient.query q1) w in
  let w2 := after env (DatabaseClient.query q2) w1 in
  exists p,
    pool (vars w1) = Some p /\
    pool (vars w2) = Some p /\
    since w1 w2 = [A_execute p q2] /\
    match pool (vars w) with
    | None => since w w1 = [A_createPool; A_execute p q1]
    | Some p0 => p = p0 /\ since w w1 = [A_execute p q1]
    end.
Proof.
  destruct w as [[tn tm pl] tr pe li nw ex]. unfold after. cbn.
  case_split; eexists; repeat split;
    try (apply since_extends; cbn; rewrite <- ?app_assoc; reflexivity).
Qed.

(** X9.  [close] without a pool does nothing.  With a pool it calls
    [pool.end()] once; when that resolves the reference is cleared and the
    next query creates a new pool, and when it rejects the reference is
    kept, so that the next query executes on the pool that was being
    ended. *)
Theorem close_then_query (env : Env) (q : JsString) (w : World) :
  let r := run env DatabaseClient.close w in
  let w2 := after env (DatabaseClient.query q) (snd r) in
  match pool (vars w) with
  | None => r = (Returned tt, w)
  | Some p =>
      since w (snd r) = [A_pool_end p] /\
      match fst r with
      | Returned _ =>
          pool (vars (snd r)) = None /\
          since (snd r) w2 =
            [A_createPool; A_execute (S (List.length (trace w))) q]
      | Thrown e =>
          pool_end_result env (List.length (trace w)) = inl e /\
          vars (snd r) = vars w /\
          since (snd r) w2 = [A_execute p q]
      end
  end.
Proof.
  destruct w as [[tn tm pl] tr pe li nw ex]. unfold after. cbn.
  case_split; repeat split;
    try (apply since_extends; cbn; rewrite <- ?app_assoc; reflexivity).
  all: rewrite length_app, Nat.add_1_r.
  all: apply since_extends; cbn; rewrite <- ?app_assoc; reflexivity.
Qed.

(** One resumption of a query task gives a query task, and a pool is
    created exactly when there was none. *)
Lemma resume_query_task (env : Env) (t : Task Rows) (w : World) :
  query_task t ->
  let r := resume env t w in
  query_task (fst r) /\
  extends w (snd r) /\
  (pools w + count is_createPool (since w (snd r)) = pools (snd r))%nat.
Proof.
  intros [[q ->] | [[r ->] | [o ->]]]; cbv zeta.
  - destruct w as [[tn tm pl] tr pe li nw ex]. unfold pools. cbn.
    destruct pl as [p|]; cbn.
    + split; [right; left; eexists; reflexivity|].
      split; [eexists; cbn; reflexivity|].
      since_now. reflexivity.
    + split; [right; left; eexists; reflexivity|].
      split; [eexists; cbn; rewrite <- app_assoc; reflexivity|].
      since_now. reflexivity.
  - destruct r as [e|rows]; cbn;
      (split; [right; right; eexists; reflexivity|]);
      (split; [apply extends_refl|]);
      rewrite since_refl; unfold count; simpl; lia.
  - cbn. split; [right; right; eexists; reflexivity|].
    split; [apply extends_refl|].
    rewrite since_refl. unfold count. simpl. lia.
Qed.

Lemma resume_nth_query_tasks (env : Env) (i : nat) (ts : list (Task Rows))
  (w : World) :
  Forall query_task ts ->
  let r := resume_nth env i ts w in
  Forall query_task (fst r) /\
  extends w (snd r) /\
  (pools w + count is_createPool (since w (snd r)) = pools (snd r))%nat.
Proof.
  revert i. induction ts as [|t ts IH]; intros i H; cbv zeta.
  - destruct i; simpl; (split; [constructor|]); (split; [apply extends_refl|]);
      rewrite since_refl; unfold count; simpl; lia.
  - inversion H as [|? ? Ht Hts]; subst. destruct i as [|j]; simpl.
    + destruct (resume_query_task env t w Ht) as (Hq & Hx & Hc).
      destruct (resume env t w) as [t' w']. simpl in *.
      split; [constructor; assumption|]. split; assumption.
    + destruct (IH j Hts) as (Hq & Hx & Hc).
      destruct (resume_nth env j ts w) as [ts' w']. simpl in *.
      split; [constructor; assumption|]. split; assumption.
Qed.

(** X10.  However many queries are in flight and however the event loop
    interleaves them, at most one pool is created, and none when one
    exists: [ensurePool] tests and sets the reference without awaiting
    anything in between.  (Opening the tunnel, which awaits between test
    and assignment, is different: see C8.) *)
Theorem concurrent_queries_share_one_pool
  (env : Env) (schedule : list nat) (ts : list (Task Rows)) (w : World) :
  Forall query_task ts ->
  let r := interleave env schedule ts w in
  Forall query_task (fst r) /\
  (pools w + count is_createPool (since w (snd r)) = pools (snd r))%nat /\
  (count is_createPool (since w (snd r)) <= 1)%nat.
Proof.
  intros H. cbv zeta.
  assert (G : Forall query_task (fst (interleave env schedule ts w)) /\
              extends w (snd (interleave env schedule ts w)) /\
              (pools w +
               count is_createPool
                 (since w (snd (interleave env schedule ts w))) =
               pools (snd (interleave env schedule ts w)))%nat).
  { revert ts w H. induction schedule as [|i rest IH]; intros ts w H; simpl.
    - split; [exact H|]. split; [apply extends_refl|].
      rewrite since_refl. unfold count. simpl. lia.
    - destruct (resume_nth_query_tasks env i ts w H) as (Hq & Hx & Hc).
      destruct (resume_nth env i ts w) as [ts' w']. simpl in *.
      destruct (IH ts' w' Hq) as (Hq' & Hx' & Hc').
      split; [exact Hq'|]. split; [eapply extends_trans; eassumption|].
      rewrite (count_since_trans _ w w' _) by assumption. lia. }
  destruct G as (Hq & _ & Hc). split; [exact Hq|]. split; [exact Hc|].
  unfold pools in Hc.
  destruct (pool (vars w)); destruct (pool (vars (snd (interleave env schedule ts w)))); lia.
Qed.

Lemma concurrent_queries_share_one_pool_witness :
  (count is_createPool
     (since initial
        (snd (interleave healthy [0; 1; 2; 1; 0; 2]%nat
                [Suspended (DatabaseClient.query (lit "SELECT 1"));
                 Suspended (DatabaseClient.query (lit "SELECT 2"));
                 Suspended (DatabaseClient.query (lit "SELECT 3"))]
                initial))) <= 1)%nat.
Proof.
  refine (proj2 (proj2
    (concurrent_queries_share_one_pool healthy [0; 1; 2; 1; 0; 2]%nat
       [Suspended (DatabaseClient.query (lit "SELECT 1"));
        Suspended (DatabaseClient.query (lit "SELECT 2"));
        Suspended (DatabaseClient.query (lit "SELECT 3"))]
       initial _))).
  repeat (apply Forall_cons; [left; eexists; reflexivity|]). apply Forall_nil.
Defined.

(** ** [runQuery]: the two ends of the first attempt *)

(** X11.  When the tunnel cannot be established, [runQuery] throws the
    error of [ensureConnection] unchanged: the query function is not
    called, nothing is retried, and the idle timer is left as it was. *)
Theorem runQuery_needs_the_tunnel {T : Type}
  (env : Env) (queryFn : Prog T) (w w0 : World) (e : JsError) :
  run env ensureConnection w = (Thrown e, w0) ->
  run env (runQuery queryFn) w = (Thrown e, w0) /\
  sshTunnel (vars w0) = None /\
  count is_execute (since w w0) = 0%nat /\
  idleTimer (vars w0) = idleTimer (vars w) /\
  pending w0 = pending w.
Proof.
  intros H0. split.
  { unfold runQuery. rewrite run_bind, H0. reflexivity. }
  frame_at (ensureConnection_frame env w) H0.
  destruct F as (_ & Et & Epe & _ & _ & Eth & _).
  specialize (Eth e eq_refl).
  repeat split; auto.
  no_such_call H0 ensureConnection_calls.
Qed.

Lemma runQuery_needs_the_tunnel_witness :
  fst (run tunnel_refused
           (runQuery (DatabaseClient.query (lit "SELECT 1"))) initial) =
  Thrown (newError (lit "Could not establish SSH tunnel to database server")).
Proof.
  refine (f_equal fst (proj1
    (runQuery_needs_the_tunnel tunnel_refused _ initial _ _ _))).
  vm_compute. reflexivity.
Defined.

(** X12.  When the first attempt succeeds, [runQuery] returns its rows:
    the statement is executed exactly once, nothing is torn down, the
    tunnel that [ensureConnection] left is still the handle, and a pool
    exists. *)
Theorem runQuery_returns_the_first_result
  (env : Env) (q : JsString) (w w0 w1 : World) (rows : Rows) :
  run env ensureConnection w = (Returned tt, w0) ->
  run env (DatabaseClient.query q) w0 = (Returned rows, w1) ->
  let final := run env (runQuery (DatabaseClient.query q)) w in
  final = (Returned rows, after env resetIdleTimer w1) /\
  count is_execute (since w (snd final)) = 1%nat /\
  count is_teardown (since w (snd final)) = 0%nat /\
  sshTunnel (vars (snd final)) = sshTunnel (vars w0) /\
  tunnel_up (snd final) /\
  pool (vars (snd final)) <> None.
Proof.
  intros H0 H1. cbv zeta.
  destruct (runQuery_first_attempt env q w w0 H0) as [_ E].
  rewrite H1 in E. rewrite E. simpl snd. split; [reflexivity|].
  unfold after.
  destruct (resetIdleTimer_frame env w1) as (_ & Rt & Rp & _).
  destruct (run env resetIdleTimer w1) as [o w2] eqn:H2. simpl snd in *.
  frame_at (ensureConnection_frame env w) H0.
  destruct F as (_ & _ & _ & Eup & _). specialize (Eup eq_refl).
  frame_at (query_frame env q w0) H1.
  destruct F as (Qt & _ & Qp & _ & _ & Qx).
  pose proof (run_extends_eq H0) as X0.
  pose proof (run_extends_eq H1) as X1.
  pose proof (run_extends_eq H2) as X2.
  assert (Z0 : count is_execute (since w w0) = 0%nat)
    by no_such_call H0 ensureConnection_calls.
  assert (Z2 : count is_execute (since w1 w2) = 0%nat)
    by no_such_call H2 resetIdleTimer_calls.
  assert (T0 : count is_teardown (since w w0) = 0%nat)
    by no_such_call H0 ensureConnection_calls.
  assert (T1 : count is_teardown (since w0 w1) = 0%nat)
    by no_such_call H1 (query_calls q).
  assert (T2 : count is_teardown (since w1 w2) = 0%nat)
    by no_such_call H2 resetIdleTimer_calls.
  rewrite !(count_since_trans _ w w0 w2), !(count_since_trans _ w0 w1 w2);
    eauto using extends_trans.
  rewrite Z0, Z2, T0, T1, T2, Qx.
  unfold tunnel_up in *. repeat split; congruence.
Qed.

Lemma runQuery_returns_the_first_result_witness :
  fst (run healthy (runQuery (DatabaseClient.query (lit "SHOW TABLES")))
           initial) = Returned [].
Proof.
  refine (f_equal fst (proj1
    (runQuery_returns_the_first_result healthy (lit "SHOW TABLES") initial
       _ _ _ _ _))).
  - vm_compute. reflexivity.
  - vm_compute. reflexivity.
Defined.

(** ** The idle timer: at most one, and re-armed by every success *)

(** A run does not move the clock. *)
Lemma now_effect {X : Type} (c : Call X) (w : World) : now (effect c w) = now w.
Proof. destruct c; reflexivity. Qed.

Lemma run_now {A : Type} (env : Env) (p : Prog A) (w : World) :
  now (snd (run env p w)) = now w.
Proof.
  revert w. induction p as [a|e|k IH|s k IH|X c k IH]; intros w; simpl; auto.
  - apply (IH (set_vars w s)).
  - rewrite IH. apply now_effect.
Qed.

Lemma armed_tracked (n : N) (w : World) : armed_at n w -> tracked_at n w.
Proof.
  intros [[t [Ht Hp]] Hn]. split; [|exact Hn].
  unfold timers_tracked. rewrite Ht. eauto.
Qed.

Lemma disarm_single (t : TimerId) (due : N) : disarm t [(t, due)] = [].
Proof. unfold disarm. simpl. now rewrite Nat.eqb_refl. Qed.

Lemma ensureConnection_timers (n : N) :
  hoare (tracked_at n) ensureConnection (fun _ w => tracked_at n w).
Proof.
  intros env w [Hw Hn].
  destruct (ensureConnection_frame env w) as (_ & Et & Ep & _).
  split; [|rewrite run_now; exact Hn].
  unfold timers_tracked in *. rewrite Et, Ep. exact Hw.
Qed.

Lemma query_timers (n : N) (q : JsString) :
  hoare (tracked_at n) (DatabaseClient.query q) (fun _ w => tracked_at n w).
Proof.
  intros env w [Hw Hn].
  destruct (query_frame env q w) as (_ & Et & _ & _ & Ep & _).
  split; [|rewrite run_now; exact Hn].
  unfold timers_tracked in *. rewrite Et, Ep. exact Hw.
Qed.

Lemma resetIdleTimer_timers (n : N) :
  hoare (tracked_at n) resetIdleTimer (fun _ w => armed_at n w).
Proof.
  intros env w [Hw Hn].
  destruct (resetIdleTimer_frame env w) as (_ & _ & _ & t & Ht & Hp).
  split; [|rewrite run_now; exact Hn].
  exists t. split; [exact Ht|]. rewrite Hp, Hn.
  unfold timers_tracked in Hw.
  destruct (idleTimer (vars w)) as [t0|].
  - destruct Hw as [due ->]. now rewrite disarm_single.
  - now rewrite Hw.
Qed.

(** [closeTunnel] leaves no timer, whether it returns or throws, also when
    it starts from the callback of the timer, which is no longer armed. *)
Lemma closeTunnel_timers (n : N) :
  hoare (fun w => (tracked_at n w \/
                   (pending w = [] /\ now w = n)))
        closeTunnel
        (fun _ w => idleTimer (vars w) = None /\ pending w = [] /\ now w = n).
Proof.
  intros env w Hw.
  assert (Hn : now w = n) by (destruct Hw as [[_ H] | [_ H]]; exact H).
  destruct (closeTunnel_frame env w) as (Cv & _ & Cs & Cn).
  split; [|split; [|rewrite run_now; exact Hn]].
  - destruct (fst (run env closeTunnel w)).
    + destruct Cv as (Cv & _). now rewrite Cv.
    + destruct Cv as (Cv & _). now rewrite Cv.
  - destruct (idleTimer (vars w)) as [t|] eqn:Et.
    + rewrite (Cs t eq_refl).
      destruct Hw as [[Hw _] | [Hw _]].
      * unfold timers_tracked in Hw. rewrite Et in Hw.
        destruct Hw as [due ->]. apply disarm_single.
      * rewrite Hw. reflexivity.
    + rewrite (Cn eq_refl).
      destruct Hw as [[Hw _] | [Hw _]].
      * unfold timers_tracked in Hw. rewrite Et in Hw. exact Hw.
      * exact Hw.
Qed.

Lemma cleared_tracked (n : N) (w : World) :
  idleTimer (vars w) = None /\ pending w = [] /\ now w = n -> tracked_at n w.
Proof.
  intros (Ht & Hp & Hn). split; [|exact Hn].
  unfold timers_tracked. now rewrite Ht.
Qed.

Lemma closeTunnel_tracked (n : N) :
  hoare (tracked_at n) closeTunnel (fun _ w => tracked_at n w).
Proof.
  eapply hoare_conseq; [apply (closeTunnel_timers n) | |].
  - intros w Hw. left. exact Hw.
  - intros o w. apply cleared_tracked.
Qed.

Lemma log_tracked (n : N) (l : list JsString) :
  hoare (tracked_at n) (call (console_error l)) (fun _ w => tracked_at n w).
Proof. intros env w Hw. rewrite run_log. exact Hw. Qed.

Lemma attempt_timers (n : N) (q : JsString) :
  hoare (tracked_at n) (attempt (DatabaseClient.query q))
        (fun o w => match o with
                    | Returned _ => armed_at n w
                    | Thrown _ => tracked_at n w
                    end).
Proof.
  unfold attempt.
  eapply hoare_bind; [apply ensureConnection_timers | intros ? | auto].
  eapply hoare_bind; [apply query_timers | intros rows | auto].
  eapply hoare_bind; [apply resetIdleTimer_timers | intros ? | ].
  - apply hoare_ret. auto.
  - intros e w. apply armed_tracked.
Qed.

(** [runQuery] keeps the timers tracked, and when it returns the idle
    timer is due [IDLE_TIMEOUT_MS] from now. *)
Lemma runQuery_timers (n : N) (q : JsString) :
  hoare (tracked_at n) (runQuery (DatabaseClient.query q))
        (fun o w => match o with
                    | Returned _ => armed_at n w
                    | Thrown _ => tracked_at n w
                    end).
Proof.
  unfold runQuery.
  eapply hoare_bind; [apply ensureConnection_timers | intros ? | auto].
  eapply hoare_try_catch with
    (Q1 := fun o w => match o with
                      | Returned _ => armed_at n w
                      | Thrown _ => tracked_at n w
                      end).
  - eapply hoare_bind; [apply query_timers | intros rows | auto].
    eapply hoare_bind; [apply resetIdleTimer_timers | intros ? | ].
    + apply hoare_ret. auto.
    + intros e w. apply armed_tracked.
  - intros e. destruct (isTransient e).
    + eapply hoare_bind; [apply log_tracked | intros ? | auto].
      eapply hoare_bind; [apply closeTunnel_tracked | intros ? | auto].
      apply attempt_timers.
    + apply hoare_throw. auto.
  - auto.
Qed.

Lemma runQuery_tracked (n : N) (q : JsString) :
  hoare (tracked_at n) (runQuery (DatabaseClient.query q))
        (fun _ w => tracked_at n w).
Proof.
  eapply hoare_conseq; [apply (runQuery_timers n q) | auto |].
  intros [r|e] w; [apply armed_tracked | auto].
Qed.

Lemma handleCallTool_tracked (n : N) (env0 : Env) (params : CallToolParams) :
  hoare (tracked_at n) (handleCallTool env0 params)
        (fun _ w => tracked_at n w).
Proof.
  unfold handleCallTool.
  eapply hoare_try_catch with (Q1 := fun _ w => tracked_at n w);
    [| intros e; apply hoare_ret; auto | auto].
  unfold dispatch.
  destruct (str_eqb (name params) (lit "read_query")).
  { eapply hoare_bind with (Q1 := fun _ w => tracked_at n w);
      [| intros sql_arg | auto].
    { destruct (arguments params); [apply hoare_ret | apply hoare_throw]; auto. }
    eapply hoare_bind with (Q1 := fun _ w => tracked_at n w);
      [| intros q | auto].
    { destruct sql_arg; [apply hoare_ret | apply hoare_throw]; auto. }
    destruct (negb (isReadOnlyQuery q)); [apply hoare_throw; auto|].
    eapply hoare_bind; [apply runQuery_tracked | intros r | auto].
    apply hoare_ret; auto. }
  destruct (str_eqb (name params) (lit "list_tables")).
  { eapply hoare_bind; [apply runQuery_tracked | intros r | auto].
    apply hoare_ret; auto. }
  destruct (str_eqb (name params) (lit "describe_table")).
  { eapply hoare_bind with (Q1 := fun _ w => tracked_at n w);
      [| intros table_arg | auto].
    { destruct (arguments params); [apply hoare_ret | apply hoare_throw]; auto. }
    eapply hoare_bind with (Q1 := fun _ w => tracked_at n w);
      [| intros t | auto].
    { destruct table_arg; [apply hoare_ret | apply hoare_throw]; auto. }
    eapply hoare_bind; [apply runQuery_tracked | intros r | auto].
    apply hoare_ret; auto. }
  destruct (str_eqb (name params) (lit "connect_db")).
  { eapply hoare_bind; [apply ensureConnection_timers | intros ? | auto].
    eapply hoare_bind with (Q1 := fun _ w => tracked_at n w);
      [| intros c | auto].
    { intros env w Hw. rewrite testConnection_swallows.
      pose proof (query_timers n (lit "SELECT 1") env w Hw) as Hq.
      destruct (run env (DatabaseClient.query (lit "SELECT 1")) w)
        as [[r|e] w']; exact Hq. }
    eapply hoare_bind; [apply resetIdleTimer_timers | intros ?
                       | intros e w; apply armed_tracked].
    intros env w Hw. simpl. apply armed_tracked, Hw. }
  apply hoare_throw; auto.
Qed.

Lemma on_sigint_tracked (n : N) :
  hoare (tracked_at n) on_sigint (fun _ w => tracked_at n w).
Proof.
  unfold on_sigint.
  eapply hoare_bind; [apply log_tracked | intros ? | auto].
  eapply hoare_bind; [apply closeTunnel_tracked | intros ? | auto].
  intros env w Hw. exact Hw.
Qed.

Lemma step_tracked (env : Env) (w w' : World) (ev : Event) :
  step env w ev = Some w' -> timers_tracked w -> timers_tracked w'.
Proof.
  intros Hstep Hw. unfold step in Hstep.
  destruct (exited w); [discriminate|].
  assert (Ht : tracked_at (now w) w) by (split; [exact Hw | reflexivity]).
  destruct ev as [params|t|c|c err| |d].
  - injection Hstep as <-.
    apply (handleCallTool_tracked (now w) env params env w Ht).
  - destruct (due_time t (pending w)) as [due|]; [|discriminate].
    destruct (due <=? now w); [|discriminate].
    injection Hstep as <-.
    apply (cleared_tracked (now w)).
    apply (closeTunnel_timers (now w) env). simpl.
    unfold timers_tracked in Hw.
    destruct (idleTimer (vars w)) as [t0|] eqn:E.
    + destruct Hw as [d Hp]. rewrite Hp. unfold disarm. simpl.
      destruct (Nat.eqb t0 t); simpl.
      * right. split; reflexivity.
      * left. split; [|reflexivity]. unfold timers_tracked. simpl.
        rewrite E. eauto.
    + right. rewrite Hw. split; reflexivity.
  - destruct (subscribed c w); [|discriminate]. injection Hstep as <-.
    exact Hw.
  - destruct (subscribed c w); [|discriminate]. injection Hstep as <-.
    exact Hw.
  - injection Hstep as <-. apply (on_sigint_tracked (now w) env w Ht).
  - destruct (may_elapse d w); [|discriminate].
    injection Hstep as <-. exact Hw.
Qed.

Lemma steps_tracked (env : Env) (evs : list Event) (w w' : World) :
  steps env w evs = Some w' -> timers_tracked w -> timers_tracked w'.
Proof.
  revert w. induction evs as [|ev evs IH]; intros w Hsteps Hw; simpl in *.
  - injection Hsteps as <-. exact Hw.
  - destruct (step env w ev) as [w1|] eqn:E; [|discriminate].
    apply (IH w1 Hsteps). apply (step_tracked env w w1 ev E Hw).
Qed.

Lemma initial_tracked : timers_tracked initial.
Proof. reflexivity. Qed.

(** X14.  In every state that the process can reach, the armed timers are
    what [idleTimer] says: none when it is null, and otherwise the one
    timer it holds.  So [resetIdleTimer] never leaves an earlier timer
    behind, and at most one teardown is scheduled at any time. *)
Theorem at_most_one_timer_is_armed (env : Env) (evs : list Event) (w : World) :
  steps env initial evs = Some w ->
  timers_tracked w /\ (List.length (pending w) <= 1)%nat.
Proof.
  intros H. pose proof (steps_tracked env evs initial w H initial_tracked) as T.
  split; [exact T|]. unfold timers_tracked in T.
  destruct (idleTimer (vars w)).
  - destruct T as [due ->]. simpl. lia.
  - rewrite T. simpl. lia.
Qed.

Lemma at_most_one_timer_is_armed_witness :
  exists w,
    steps healthy initial
      [ToolCall (tool "list_tables"); Elapse 1000;
       ToolCall (tool "connect_db"); ConnClose 1%nat;
       ToolCall (tool "list_tables")] = Some w /\
    timers_tracked w.
Proof.
  eexists. split; [vm_compute; reflexivity|].
  refine (proj1 (at_most_one_timer_is_armed healthy
                   [ToolCall (tool "list_tables"); Elapse 1000;
                    ToolCall (tool "connect_db"); ConnClose 1%nat;
                    ToolCall (tool "list_tables")] _ _)).
  vm_compute. reflexivity.
Defined.

(** X15.  In every reachable state, a [runQuery] that returns leaves
    exactly one timer, due the full idle period from now: an earlier
    deadline is replaced, not kept. *)
Theorem successful_query_rearms_the_timer
  (env : Env) (evs : list Event) (w w' : World) (q : JsString) (rows : Rows) :
  steps env initial evs = Some w ->
  run env (runQuery (DatabaseClient.query q)) w = (Returned rows, w') ->
  exists t,
    idleTimer (vars w') = Some t /\
    pending w' = [(t, now w + IDLE_TIMEOUT_MS)] /\
    now w' = now w.
Proof.
  intros Hs Hr.
  pose proof (steps_tracked env evs initial w Hs initial_tracked) as T.
  pose proof (runQuery_timers (now w) q env w (conj T eq_refl)) as H.
  rewrite Hr in H. simpl in H. destruct H as [[t [Ht Hp]] Hn].
  exists t. auto.
Qed.

Lemma successful_query_rearms_the_timer_witness :
  exists t w',
    run healthy (runQuery (DatabaseClient.query (lit "SHOW TABLES")))
        (after healthy (handleCallTool healthy (tool "connect_db")) initial) =
      (Returned [], w') /\
    pending w' = [(t, IDLE_TIMEOUT_MS)].
Proof.
  destruct (successful_query_rearms_the_timer healthy
              [ToolCall (tool "connect_db")]
              (after healthy (handleCallTool healthy (tool "connect_db")) initial)
              (snd (run healthy
                      (runQuery (DatabaseClient.query (lit "SHOW TABLES")))
                      (after healthy
                         (handleCallTool healthy (tool "connect_db")) initial)))
              (lit "SHOW TABLES") [])
    as [t [_ [Hp _]]].
  - vm_compute. reflexivity.
  - vm_compute. reflexivity.
  - exists t. eexists. split; [vm_compute; reflexivity|]. exact Hp.
Defined.

(** X16.  [connect_db] re-arms the idle timer whenever the tunnel is
    there, also when the probe fails: unlike the statement tools, it calls
    [resetIdleTimer] after [testConnection], which never throws. *)
Theorem connect_db_rearms_the_timer
  (env : Env) (evs : list Event) (args : option ToolArguments)
  (w w0 : World) :
  steps env initial evs = Some w ->
  run env ensureConnection w = (Returned tt, w0) ->
  let w' := after env (handleCallTool env (mkParams (lit "connect_db") args)) w in
  exists t,
    idleTimer (vars w') = Some t /\
    pending w' = [(t, now w + IDLE_TIMEOUT_MS)] /\
    tunnel_up w'.
Proof.
  intros Hs H0. cbv zeta.
  pose proof (steps_tracked env evs initial w Hs initial_tracked) as T.
  unfold after, handleCallTool.
  rewrite run_try_catch, dispatch_connect_db, run_bind, H0, run_bind,
    testConnection_swallows.
  pose proof (ensureConnection_timers (now w) env w (conj T eq_refl)) as T0.
  rewrite H0 in T0. simpl in T0.
  frame_at (ensureConnection_frame env w) H0.
  destruct F as (_ & _ & _ & Eup & _). specialize (Eup eq_refl).
  pose proof (query_timers (now w) (lit "SELECT 1") env w0 T0) as T1.
  destruct (query_frame env (lit "SELECT 1") w0) as (Qt & _).
  assert (R : forall (b : bool) w1,
             tracked_at (now w) w1 -> sshTunnel (vars w1) = sshTunnel (vars w0) ->
             exists t,
               idleTimer (vars (snd (run env resetIdleTimer w1))) = Some t /\
               pending (snd (run env resetIdleTimer w1)) =
                 [(t, now w + IDLE_TIMEOUT_MS)] /\
               tunnel_up (snd (run env resetIdleTimer w1))).
  { intros _ w1 Tw Hw1.
    pose proof (resetIdleTimer_timers (now w) env w1 Tw) as [[t [Ht Hp]] _].
    destruct (resetIdleTimer_frame env w1) as (_ & Rt & _).
    exists t. repeat split; auto. unfold tunnel_up in *. congruence. }
  destruct (run env (DatabaseClient.query (lit "SELECT 1")) w0)
    as [[r|e] w1]; simpl in T1, Qt;
    rewrite run_bind;
    destruct (R true w1 T1 Qt) as [t Ht];
    destruct (resetIdleTimer_frame env w1) as [Hr _];
    destruct (run env resetIdleTimer w1) as [o w2]; simpl in Hr; subst o;
    simpl in *; exists t; exact Ht.
Qed.

Lemma connect_db_rearms_the_timer_witness :
  exists t,
    pending (after (failing_queries no_such_table)
               (handleCallTool (failing_queries no_such_table)
                  (tool "connect_db")) initial) = [(t, IDLE_TIMEOUT_MS)].
Proof.
  destruct (connect_db_rearms_the_timer (failing_queries no_such_table) []
              None initial
              (snd (run (failing_queries no_such_table) ensureConnection
                      initial)))
    as [t [_ [Hp _]]].
  - reflexivity.
  - vm_compute. reflexivity.
  - exists t. exact Hp.
Defined.

Lemma idle_timer_tears_down_once_witness :
  let w := after healthy (handleCallTool healthy (tool "list_tables")) initial in
  exists w1 w2,
    step healthy w (Elapse (IDLE_TIMEOUT_MS - now w)) = Some w1 /\
    step healthy w1 (TimerDue 6%nat) = Some w2 /\
    vars w2 = mkState None None None.
Proof.
  cbv zeta.
  destruct (idle_timer_tears_down_once healthy
              (after healthy (handleCallTool healthy (tool "list_tables"))
                     initial)
              6%nat IDLE_TIMEOUT_MS (mkTunnel 1 1) 4%nat)
    as [w1 [w2 (H1 & H2 & H3 & _)]].
  - reflexivity.
  - reflexivity.
  - reflexivity.
  - vm_compute. discriminate.
  - reflexivity.
  - exists w1, w2. auto.
Defined.

(** ** SIGINT *)

(** X18.  The SIGINT handler logs, tears down and then exits with status
    0; after that nothing is left open and the process takes no further
    event.  When the teardown throws, which only [pool.end()] can cause,
    [process.exit] is not reached: the process stays, with the pool and
    the handle it had. *)
Theorem sigint_exits_after_teardown (env : Env) (w : World) :
  exited w = false ->
  let w1 := effect (console_error [lit "Shutting down..."]) w in
  let w' := after env on_sigint w in
  match fst (run env closeTunnel w1) with
  | Returned _ =>
      exited w' = true /\
      vars w' = mkState None None None /\
      last (trace w') A_readFileSync = A_exit 0 /\
      forall ev, step env w' ev = None
  | Thrown e =>
      exited w' = false /\
      count (fun a => match a with A_exit _ => true | _ => false end)
            (since w w') = 0%nat /\
      pool (vars w') = pool (vars w) /\
      sshTunnel (vars w') = sshTunnel (vars w)
  end.
Proof.
  intros Hex. destruct w as [[tn tm pl] tr pe li nw ex]. simpl in Hex.
  subst ex. unfold after. cbn.
  case_split; since_now; cbn; rewrite ?last_last; repeat split.
Qed.

Lemma sigint_exits_after_teardown_witness :
  exited (after healthy on_sigint
            (after healthy (handleCallTool healthy (tool "list_tables"))
                   initial)) = true.
Proof.
  pose proof (sigint_exits_after_teardown healthy
                (after healthy (handleCallTool healthy (tool "list_tables"))
                       initial)) as H.
  vm_compute in H. apply H. reflexivity.
Defined.

(** ** Reopening *)

(** X19.  When the connection that the handle holds closes or fails, the
    listener clears the handle and nothing else: pool and timer stay.  The
    next [ensureConnection] therefore opens anew: it reads the key once,
    and when it returns the handle is the tunnel that the new call of
    [createTunnel] resolved with. *)
Theorem dropped_connection_is_reopened
  (env : Env) (w w1 : World) (t : Tunnel) (err : JsError) :
  sshTunnel (vars w) = Some t ->
  step env w (ConnClose (conn t)) = Some w1 \/
  step env w (ConnError (conn t) err) = Some w1 ->
  let r := run env ensureConnection w1 in
  sshTunnel (vars w1) = None /\
  pool (vars w1) = pool (vars w) /\
  idleTimer (vars w1) = idleTimer (vars w) /\
  pending w1 = pending w /\
  count is_readFileSync (since w1 (snd r)) = 1%nat /\
  match fst r with
  | Returned _ =>
      exists t',
        tunnel_result env (S (List.length (trace w1))) = inr t' /\
        sshTunnel (vars (snd r)) = Some t' /\
        count is_createTunnel (since w1 (snd r)) = 1%nat
  | Thrown _ => sshTunnel (vars (snd r)) = None
  end.
Proof.
  intros Ht Hstep. cbv zeta. unfold step in Hstep.
  destruct (exited w); [destruct Hstep; discriminate|].
  destruct (subscribed (conn t) w); [|destruct Hstep; discriminate].
  assert (Hv : sshTunnel (vars w1) = None /\ pool (vars w1) = pool (vars w) /\
               idleTimer (vars w1) = idleTimer (vars w) /\
               pending w1 = pending w).
  { destruct Hstep as [H | H]; injection H as <-; repeat split. }
  destruct Hv as (Hn & Hp & Hi & Hpe). repeat (split; [assumption|]).
  clear Hstep Hp Hi Hpe Ht.
  destruct w1 as [[tn tm pl] tr pe li nw ex]. simpl in Hn. subst tn. cbn.
  case_split; since_now; cbn; rewrite ?length_app, ?Nat.add_1_r in *;
    repeat split; eauto.
Qed.

Lemma dropped_connection_is_reopened_witness :
  exists w1,
    step healthy (after healthy (handleCallTool healthy (tool "connect_db")) initial)
         (ConnClose 1%nat) = Some w1 /\
    count is_readFileSync
      (since w1 (snd (run healthy ensureConnection w1))) = 1%nat.
Proof.
  eexists. split; [vm_compute; reflexivity|].
  refine (proj1 (proj2 (proj2 (proj2 (proj2
    (dropped_connection_is_reopened healthy
       (after healthy (handleCallTool healthy (tool "connect_db")) initial)
       _ (mkTunnel 1 1) econnreset _ _)))))).
  - vm_compute. reflexivity.
  - left. vm_compute. reflexivity.
Defined.

Lemma ensureConnection_opens (env : Env) (w w' : World) :
  sshTunnel (vars w) = None ->
  run env ensureConnection w = (Returned tt, w') ->
  exists t,
    tunnel_result env (S (List.length (trace w))) = inr t /\
    sshTunnel (vars w') = Some t.
Proof.
  destruct w as [[tn tm pl] tr pe li nw ex]. simpl. intros ->. cbn.
  case_split; intros [= <-]; cbn; rewrite ?length_app, ?Nat.add_1_r in *;
    eauto.
Qed.

Lemma query_trace (env : Env) (q : JsString) (w : World) :
  since w (after env (DatabaseClient.query q) w) =
  match pool (vars w) with
  | Some p => [A_execute p q]
  | None => [A_createPool; A_execute (List.length (trace w)) q]
  end.
Proof.
  destruct w as [[tn tm pl] tr pe li nw ex]. unfold after. cbn.
  case_split; apply since_extends; cbn; rewrite <- ?app_assoc; reflexivity.
Qed.

(** X20.  After a teardown that returned, the next connection and query
    run on a tunnel and on a pool that are both new: one call of
    [createTunnel], one pool created, one statement executed. *)
Theorem teardown_is_followed_by_a_fresh_session
  (env : Env) (q : JsString) (w w1 w2 : World) :
  run env closeTunnel w = (Returned tt, w1) ->
  run env ensureConnection w1 = (Returned tt, w2) ->
  let w3 := after env (DatabaseClient.query q) w2 in
  count is_createTunnel (since w1 w3) = 1%nat /\
  count is_createPool (since w1 w3) = 1%nat /\
  count is_execute (since w1 w3) = 1%nat /\
  (exists t,
      tunnel_result env (S (List.length (trace w1))) = inr t /\
      sshTunnel (vars w3) = Some t) /\
  pool (vars w3) <> None.
Proof.
  intros H1 H2. cbv zeta.
  frame_at (closeTunnel_frame env w) H1. destruct F as ((Cv & _) & _).
  assert (Hn : sshTunnel (vars w1) = None) by now rewrite Cv.
  frame_at (ensureConnection_frame env w1) H2.
  destruct F as (Ep & _ & _ & _ & _ & _ & _ & Ec & _).
  specialize (Ec eq_refl Hn).
  destruct (ensureConnection_opens env w1 w2 Hn H2) as [t [Ht Hs]].
  pose proof (run_extends_eq H2) as X2.
  pose proof (run_extends env (DatabaseClient.query q) w2) as X3.
  fold (after env (DatabaseClient.query q) w2) in X3.
  destruct (query_frame env q w2) as (Qt & _ & Qp & _).
  fold (after env (DatabaseClient.query q) w2) in Qt, Qp.
  pose proof (query_trace env q w2) as Q.
  assert (Hp : pool (vars w2) = None) by (rewrite Ep, Cv; reflexivity).
  rewrite Hp in Q.
  assert (Z1 : count is_createPool (since w1 w2) = 0%nat)
    by no_such_call H2 ensureConnection_calls.
  assert (Z2 : count is_execute (since w1 w2) = 0%nat)
    by no_such_call H2 ensureConnection_calls.
  rewrite (count_since_trans is_createTunnel w1 w2 _),
    (count_since_trans is_createPool w1 w2 _),
    (count_since_trans is_execute w1 w2 _) by assumption.
  rewrite Q, Ec, Z1, Z2.
  repeat split; try reflexivity; try assumption.
  exists t. split; [exact Ht | congruence].
Qed.

Lemma teardown_is_followed_by_a_fresh_session_witness :
  let w := after healthy (handleCallTool healthy (tool "list_tables")) initial in
  let w1 := after healthy closeTunnel w in
  let w2 := after healthy ensureConnection w1 in
  count is_createPool
    (since w1 (after healthy (DatabaseClient.query (lit "SELECT 1")) w2)) =
  1%nat.
Proof.
  cbv zeta.
  refine (proj1 (proj2
    (teardown_is_followed_by_a_fresh_session healthy (lit "SELECT 1")
       (after healthy (handleCallTool healthy (tool "list_tables")) initial)
       _ _ _ _))).
  - vm_compute. reflexivity.
  - vm_compute. reflexivity.
Defined.

(** ** The tools: what is listed and what is handled *)

Lemma str_eqb_neq (a b : JsString) : a <> b -> str_eqb a b = false.
Proof.
  intros H. destruct (str_eqb a b) eqn:E; [|reflexivity].
  apply str_eqb_eq in E. contradiction.
Qed.

(** X21.  The tools that the server lists are the tools that the handler
    knows: the dispatch ends in the default branch exactly for the names
    that are not listed, and such a call is answered [Unknown tool] with
    the name, and nothing is done. *)
Theorem listed_tools_are_the_handled_tools
  (env : Env) (n : JsString) (args : option ToolArguments) (w : World) :
  (dispatch env (mkParams n args) =
     Throw (newError (lit "Unknown tool: " ++ n))
   <-> ~ In n (map tool_name listTools)) /\
  (~ In n (map tool_name listTools) ->
   run env (handleCallTool env (mkParams n args)) w =
   (Returned (text_result (Plain (lit "Error: Unknown tool: " ++ n))), w)).
Proof.
  assert (U : ~ In n (map tool_name listTools) ->
              dispatch env (mkParams n args) =
              Throw (newError (lit "Unknown tool: " ++ n))).
  { intros H. simpl in H. unfold dispatch. cbn [name].
    rewrite !str_eqb_neq; [reflexivity | | | |]; intros ->; apply H; tauto. }
  split; [split; [|exact U]|].
  - intros E H. simpl in H.
    destruct H as [<- | [<- | [<- | [<- | []]]]];
      destruct args as [[[s|] [t|]]|]; cbn in E; try discriminate E;
      destruct (negb (isReadOnlyQuery s)); discriminate E.
  - intros H. unfold handleCallTool. rewrite run_try_catch, (U H).
    reflexivity.
Qed.

(** X22.  A call of a listed tool without a property that its schema
    requires is answered with an error text, and nothing is done: no
    statement, no tunnel, no timer.  The handler has no check of its own;
    the answer comes from reading the property of [undefined], or from
    calling a string method on [undefined]. *)
Theorem missing_required_argument_is_an_error
  (env : Env) (tl : Tool) (p : string) (args : option ToolArguments)
  (w : World) :
  In tl listTools ->
  (exists ps, required (inputSchema tl) = Some ps /\ In p ps) ->
  argument p args = None ->
  exists msg,
    run env (handleCallTool env (mkParams (tool_name tl) args)) w =
    (Returned (text_result (Plain (lit "Error: " ++ msg))), w).
Proof.
  intros Hin [ps [Hr Hp]] Ha. simpl in Hin.
  destruct Hin as [<- | [<- | [<- | [<- | []]]]]; simpl in Hr;
    try discriminate Hr; injection Hr as <-;
    destruct Hp as [<- | []]; unfold handleCallTool;
    rewrite run_try_catch.
  - rewrite dispatch_read_query.
    destruct args as [[s t]|]; simpl in Ha; [subst s|];
      eexists; reflexivity.
  - rewrite dispatch_describe_table.
    destruct args as [[s t]|]; simpl in Ha; [subst t|];
      eexists; reflexivity.
Qed.

Lemma missing_required_argument_is_an_error_witness :
  exists msg,
    run healthy
        (handleCallTool healthy
           (mkParams (lit "describe_table") (Some (mkArgs (Some (lit "x")) None))))
        initial =
    (Returned (text_result (Plain (lit "Error: " ++ msg))), initial).
Proof.
  apply (missing_required_argument_is_an_error healthy
           (mkTool (lit "describe_table")
              (lit "Show the structure/schema of a specific table")
              (mkSchema (lit "object")
                 [mkProperty "table" (lit "string")
                    (lit "Name of the table to describe")]
                 (Some ["table"%string])))
           "table" (Some (mkArgs (Some (lit "x")) None)) initial).
  - simpl. tauto.
  - exists ["table"%string]. split; [reflexivity | simpl; tauto].
  - reflexivity.
Defined.

(** The answer of a tool that runs one statement through [runQuery], once
    the tunnel is there. *)
Lemma query_answer_executes
  (env : Env) (w w0 : World) (q : JsString) :
  run env ensureConnection w = (Returned tt, w0) ->
  let answer :=
    match run env (runQuery (DatabaseClient.query q)) w with
    | (Returned rows, w') =>
        (Returned (text_result (JSON_stringify (J_rows rows))), w')
    | (Thrown e, w') =>
        (Returned (text_result (Plain (lit "Error: " ++ messageText e))), w')
    end in
  Forall (executes_only q) (since w (snd answer)) /\
  (exists p, In (A_execute p q) (since w (snd answer))) /\
  match run env (DatabaseClient.query q) w0 with
  | (Returned rows, _) =>
      fst answer = Returned (text_result (JSON_stringify (J_rows rows)))
  | (Thrown e, w1) =>
      if isTransient e then True
      else answer =
             (Returned (text_result (Plain (lit "Error: " ++ messageText e))),
              w1)
  end.
Proof.
  intros H0. cbv zeta.
  pose proof (all_calls_run _ env _ w (runQuery_executes_only q)) as HF.
  destruct (runQuery_first_attempt env q w w0 H0) as [Hc Ho].
  unfold after in HF.
  assert (Hin : exists p,
             In (A_execute p q)
                (since w (snd (run env (runQuery (DatabaseClient.query q)) w)))).
  { destruct (count_positive _ _ Hc) as [a [Ha Hx]].
    destruct a as [ | |?| |p0 q0|?|?|?|?|?|?|?]; try discriminate Hx.
    exists p0. pose proof (proj1 (Forall_forall _ _) HF) as HF'.
    pose proof (HF' _ Ha p0 q0 eq_refl) as Eq. subst q0. exact Ha. }
  destruct (run env (runQuery (DatabaseClient.query q)) w)
    as [[rows'|e'] wf]; simpl snd in *; simpl fst;
    (split; [exact HF|]); (split; [exact Hin|]).
  - destruct (run env (DatabaseClient.query q) w0) as [[rows|e] w1].
    + injection Ho as <- _. reflexivity.
    + destruct (isTransient e); [exact I | discriminate Ho].
  - destruct (run env (DatabaseClient.query q) w0) as [[rows|e] w1].
    + discriminate Ho.
    + destruct (isTransient e); [exact I|].
      injection Ho as <- <-. reflexivity.
Qed.

(** X23.  [read_query] hands the caller's string to the pool as it is:
    the check trims and lower-cases a copy, the statement executed is the
    original.  With the tunnel there, it is executed, nothing else is, and
    the answer is the rows as JSON or the text of the error. *)
Theorem read_query_executes_the_string_as_given
  (env : Env) (w w0 : World) (q : JsString) (other : option JsString) :
  isReadOnlyQuery q = true ->
  run env ensureConnection w = (Returned tt, w0) ->
  let answer :=
    run env
        (handleCallTool env
           (mkParams (lit "read_query") (Some (mkArgs (Some q) other)))) w in
  Forall (executes_only q) (since w (snd answer)) /\
  (exists p, In (A_execute p q) (since w (snd answer))) /\
  match run env (DatabaseClient.query q) w0 with
  | (Returned rows, _) =>
      fst answer = Returned (text_result (JSON_stringify (J_rows rows)))
  | (Thrown e, w1) =>
      if isTransient e then True
      else answer =
             (Returned (text_result (Plain (lit "Error: " ++ messageText e))),
              w1)
  end.
Proof.
  intros Hq H0. cbv zeta.
  assert (E : run env
                  (handleCallTool env
                     (mkParams (lit "read_query")
                        (Some (mkArgs (Some q) other)))) w =
              match run env (runQuery (DatabaseClient.query q)) w with
              | (Returned rows, w') =>
                  (Returned (text_result (JSON_stringify (J_rows rows))), w')
              | (Thrown e, w') =>
                  (Returned
                     (text_result (Plain (lit "Error: " ++ messageText e))),
                   w')
              end).
  { unfold handleCallTool.
    rewrite run_try_catch, dispatch_read_query.
    cbn [property receiver sql bind]. rewrite Hq. cbn [negb].
    rewrite run_bind.
    destruct (run env (runQuery _) w) as [[rows|e] w']; reflexivity. }
  rewrite E. exact (query_answer_executes env w w0 q H0).
Qed.

Lemma read_query_executes_the_string_as_given_witness :
  exists p,
    In (A_execute p (lit "  Select 1 "))
       (trace (snd (run healthy
                      (handleCallTool healthy (read_query "  Select 1 "))
                      initial))).
Proof.
  destruct (read_query_executes_the_string_as_given healthy initial
              (snd (run healthy ensureConnection initial))
              (lit "  Select 1 ") None) as (_ & [p Hp] & _).
  - reflexivity.
  - vm_compute. reflexivity.
  - exists p. exact Hp.
Defined.

(** X24.  [list_tables] runs the one statement SHOW TABLES, whatever
    arguments the caller sends, and answers with the rows as JSON or the
    text of the error. *)
Theorem list_tables_executes_show_tables
  (env : Env) (w w0 : World) (args : option ToolArguments) :
  run env ensureConnection w = (Returned tt, w0) ->
  let statement := lit "SHOW TABLES" in
  let answer :=
    run env (handleCallTool env (mkParams (lit "list_tables") args)) w in
  Forall (executes_only statement) (since w (snd answer)) /\
  (exists p, In (A_execute p statement) (since w (snd answer))) /\
  match run env (DatabaseClient.query statement) w0 with
  | (Returned rows, _) =>
      fst answer = Returned (text_result (JSON_stringify (J_rows rows)))
  | (Thrown e, w1) =>
      if isTransient e then True
      else answer =
             (Returned (text_result (Plain (lit "Error: " ++ messageText e))),
              w1)
  end.
Proof.
  intros H0. cbv zeta.
  assert (E : run env
                  (handleCallTool env (mkParams (lit "list_tables") args)) w =
              match run env
                      (runQuery (DatabaseClient.query (lit "SHOW TABLES")))
                      w with
              | (Returned rows, w') =>
                  (Returned (text_result (JSON_stringify (J_rows rows))), w')
              | (Thrown e, w') =>
                  (Returned
                     (text_result (Plain (lit "Error: " ++ messageText e))),
                   w')
              end).
  { unfold handleCallTool.
    rewrite run_try_catch, dispatch_list_tables, run_bind.
    destruct (run env (runQuery _) w) as [[rows|e] w']; reflexivity. }
  rewrite E. exact (query_answer_executes env w w0 (lit "SHOW TABLES") H0).
Qed.

Lemma list_tables_executes_show_tables_witness :
  exists p,
    In (A_execute p (lit "SHOW TABLES"))
       (trace (snd (run healthy
                      (handleCallTool healthy
                         (mkParams (lit "list_tables")
                            (Some (mkArgs (Some (lit "DROP TABLE x")) None))))
                      initial))).
Proof.
  destruct (list_tables_executes_show_tables healthy initial
              (snd (run healthy ensureConnection initial))
              (Some (mkArgs (Some (lit "DROP TABLE x")) None)))
    as (_ & [p Hp] & _).
  - vm_compute. reflexivity.
  - exists p. exact Hp.
Defined.

(** X2.  A statement of white space only, the empty one included, is
    refused by [read_query] with the validation message, before anything
    is done. *)
Theorem read_query_refuses_blank_statement
  (env : Env) (w : World) (q : JsString) (other : option JsString) :
  forallb isWhiteSpace q = true ->
  run env
      (handleCallTool env
         (mkParams (lit "read_query") (Some (mkArgs (Some q) other)))) w =
  (Returned
     (text_result
        (Plain (lit "Error: Only SELECT, SHOW, and DESCRIBE queries are allowed"))),
   w).
Proof.
  intros H. unfold handleCallTool.
  rewrite run_try_catch, dispatch_read_query.
  cbn [property receiver sql bind].
  rewrite (isReadOnlyQuery_rejects_blank q H). reflexivity.
Qed.

Lemma read_query_refuses_blank_statement_witness :
  fst (run healthy (handleCallTool healthy (read_query "   ")) initial) =
  Returned
    (text_result
       (Plain (lit "Error: Only SELECT, SHOW, and DESCRIBE queries are allowed"))).
Proof.
  refine (f_equal fst
    (read_query_refuses_blank_statement healthy initial (lit "   ") None _)).
  reflexivity.
Defined.
